(** * BatchTracker (sawtooth_validator/state/batch_tracker.py)

    A shallow embedding of the batch tracker of the Sawtooth validator and
    the properties of its status state machine, of its cache of invalid
    batches and of its observer notification.

    Python dicts are association lists with unique keys, in the order of
    insertion that a dict iterates in (Python 3.7 and later): the tracker
    iterates over them ([notify_txn_invalid] stops at the first match,
    [_update_observers] calls observers in registration order), so the
    order is part of the behaviour. Methods are computations in a state
    and exception monad over the tracker's attributes; the state reached
    when a method raises is kept, as the object keeps it in Python.

    What is external to the file is kept abstract or modelled from its
    contract: the block store is a predicate [has_batch], the clock is a
    counter advanced by the environment, and a callback of an observer is
    recorded in a log of calls. Callbacks are taken to return normally and
    not to call back into the tracker; the re-entrant lock is then
    invisible and is not modelled. *)

From Stdlib.Strings Require Import Byte.
From stdpp Require Import base decidable option list gmap strings.

(** ** Python dicts *)

Section py_dict.
Context {K V : Type} `{EqDecision K}.
Implicit Types (d : list (K * V)) (k : K) (v : V).

(** [d.get(k)]: [None] when the key is absent. *)
Fixpoint dict_get d k : option V :=
  match d with
  | [] => None
  | (k', v') :: d' => if decide (k' = k) then Some v' else dict_get d' k
  end.

(** [k in d] *)
Definition dict_contains d k : bool :=
  match dict_get d k with Some _ => true | None => false end.

(** [d[k] = v]: a key already present keeps its position, a new key goes
    to the end. *)
Fixpoint dict_setitem d k v : list (K * V) :=
  match d with
  | [] => [(k, v)]
  | (k', v') :: d' =>
      if decide (k' = k) then (k', v) :: d' else (k', v') :: dict_setitem d' k v
  end.

Fixpoint dict_delete d k : list (K * V) :=
  match d with
  | [] => []
  | (k', v') :: d' =>
      if decide (k' = k) then d' else (k', v') :: dict_delete d' k
  end.

(** [d.pop(k)], the popped value dropped: [None] stands for the KeyError
    of an absent key. *)
Definition dict_pop d k : option (list (K * V)) :=
  if dict_contains d k then Some (dict_delete d k) else None.

(** The write through a second reference to a value already stored under
    [k]: the entry changes where it is, and nothing is added when [k] is
    no key. *)
Fixpoint dict_store d k v : list (K * V) :=
  match d with
  | [] => []
  | (k', v') :: d' =>
      if decide (k' = k) then (k', v) :: d' else (k', v') :: dict_store d' k v
  end.

Definition dict_keys d : list K := d.*1.
Definition dict_values d : list V := d.*2.

(** The lists that stand for a dict. *)
Definition dict_wf d : Prop := NoDup (dict_keys d).
End py_dict.

Global Arguments dict_keys {K V} d : simpl never.
Global Arguments dict_values {K V} d : simpl never.

(** ** Data *)

(** client_pb2.BatchStatus, with the four values that the tracker uses. *)
Inductive BatchStatus := COMMITTED | INVALID | PENDING | UNKNOWN.

Global Instance BatchStatus_eq_dec : EqDecision BatchStatus.
Proof. solve_decision. Defined.

(** The part of a transaction and of a batch that the tracker reads. *)
Record Transaction := { txn_header_signature : string }.
Record Batch := { header_signature : string; transactions : list Transaction }.

(** The dict [txn_info]: the key 'id' is always there, 'message' and
    'extended_data' only when the argument is not None. *)
Record TxnInfo := {
  info_id : string;
  info_message : option string;
  info_extended_data : option (list byte)
}.

Global Instance byte_eq_dec : EqDecision byte := Byte.byte_eq_dec.

Global Instance TxnInfo_eq_dec : EqDecision TxnInfo.
Proof. solve_decision. Defined.

(** A statuses dict, batch id to status. *)
Abbreviation Statuses := (list (string * BatchStatus)).

(** An observer is an instance of a class that implements
    [BatchFinishObserver]: it has the abstract method
    [notify_batches_finished], and the further attributes its class gives
    it. Observers are dict keys by identity. *)
Record Observer := { obs_id : nat; obs_attrs : list string }.

Global Instance Observer_eq_dec : EqDecision Observer.
Proof. solve_decision. Defined.

Definition hasattr (o : Observer) (name : string) : bool :=
  bool_decide (name = "notify_batches_finished")
  || bool_decide (name ∈ obs_attrs o).

(** A call made on an observer. *)
Record Call := {
  call_observer : Observer;
  call_method : string;
  call_statuses : Statuses
}.

Global Instance Call_eq_dec : EqDecision Call.
Proof. solve_decision. Defined.

(** The block store, queried and never changed by the tracker. *)
Record BlockStore := { has_batch : string -> bool }.

(** By default invalid batch info will be kept for one hour *)
Definition INVALID_KEEP_TIME : nat := 3600.

(** Modelled from the spec: TimedCache (sawtooth_validator/journal/
    timed_cache.py is not among the sources). Section 4.3: set(key, value)
    starts or refreshes the expiry timer of the key, of fixed duration
    keep_time; get(key) returns the value if present and not expired and
    signals NotFound otherwise, contains(key) likewise; an expired entry is
    invisible to readers without any sweep. An entry written at time T is
    readable before T + keep_time and not from T + keep_time on. *)
Record TimedCache := {
  keep_time : nat;
  cache_items : list (string * (TxnInfo * nat))
}.

Definition timed_get (now : nat) (c : TimedCache) (key : string) : option TxnInfo :=
  match dict_get (cache_items c) key with
  | Some (value, stamp) =>
      if decide (now < stamp + keep_time c) then Some value else None
  | None => None
  end.

Definition timed_contains (now : nat) (c : TimedCache) (key : string) : bool :=
  match timed_get now c key with Some _ => true | None => false end.

Definition timed_setitem (now : nat) (c : TimedCache) (key : string)
    (value : TxnInfo) : TimedCache :=
  {| keep_time := keep_time c;
     cache_items := dict_setitem (cache_items c) key (value, now) |}.

(** ** The tracker and its environment *)

(** The attributes of a BatchTracker, under the names they have in the
    class, with the two things around it that its methods read and write:
    the clock and the log of the calls made on observers. The lock is not
    modelled. *)
Record World := {
  _block_store : BlockStore;
  _invalid : TimedCache;
  _pending : list (string * gset string);
  _observers : list (Observer * Statuses);
  clock : nat;            (* time.time(), as the cache reads it *)
  calls : list Call       (* the calls made on observers, oldest first *)
}.

Definition set_invalid (c : TimedCache) (w : World) : World :=
  {| _block_store := _block_store w; _invalid := c; _pending := _pending w;
     _observers := _observers w; clock := clock w; calls := calls w |}.

Definition set_pending (p : list (string * gset string)) (w : World) : World :=
  {| _block_store := _block_store w; _invalid := _invalid w; _pending := p;
     _observers := _observers w; clock := clock w; calls := calls w |}.

Definition set_observers (o : list (Observer * Statuses)) (w : World) : World :=
  {| _block_store := _block_store w; _invalid := _invalid w;
     _pending := _pending w; _observers := o; clock := clock w;
     calls := calls w |}.

Definition set_calls (l : list Call) (w : World) : World :=
  {| _block_store := _block_store w; _invalid := _invalid w;
     _pending := _pending w; _observers := _observers w; clock := clock w;
     calls := l |}.

Definition set_block_store (s : BlockStore) (w : World) : World :=
  {| _block_store := s; _invalid := _invalid w; _pending := _pending w;
     _observers := _observers w; clock := clock w; calls := calls w |}.

Definition set_clock (t : nat) (w : World) : World :=
  {| _block_store := _block_store w; _invalid := _invalid w;
     _pending := _pending w; _observers := _observers w; clock := t;
     calls := calls w |}.

(** [BatchTracker.__init__], at a given time. *)
Definition init (block_store : BlockStore) (now : nat) : World :=
  {| _block_store := block_store;
     _invalid := {| keep_time := INVALID_KEEP_TIME; cache_items := [] |};
     _pending := [];
     _observers := [];
     clock := now;
     calls := [] |}.

(** ** Exceptions and the monad of methods *)

Inductive exn :=
| NameError (name : string)
| AttributeError (o : Observer) (attr : string)
| KeyError (arg : string + Observer).

Inductive result (A : Type) :=
| Ok (a : A)
| Raised (e : exn).
Arguments Ok {A} a.
Arguments Raised {A} e.

Definition M (A : Type) : Type := World -> World * result A.

Definition ret {A} (a : A) : M A := fun w => (w, Ok a).

Definition bind {A B} (c : M A) (k : A -> M B) : M B := fun w =>
  match c w with
  | (w', Ok a) => k a w'
  | (w', Raised e) => (w', Raised e)
  end.

Definition raise {A} (e : exn) : M A := fun w => (w, Raised e).
Definition get_world : M World := fun w => (w, Ok w).
Definition modify (f : World -> World) : M unit := fun w => (f w, Ok tt).

Notation "'do' x <- c ; k" := (bind c (fun x => k))
  (at level 10, x name, c at level 100, k at level 200).
Notation "c ;; k" := (bind c (fun _ => k))
  (at level 100, k at level 200, right associativity).

(** The state a call leaves behind, whether it returns or raises. *)
Definition exec {A} (c : M A) (w : World) : World := fst (c w).

(** ** Methods of BatchTracker *)

(** A method call [observer.name(statuses)]: AttributeError when the
    observer has no such attribute; otherwise the call is logged. *)
Definition invoke (observer : Observer) (name : string)
    (statuses : Statuses) : M unit :=
  if hasattr observer name then
    modify (fun w =>
      set_calls (calls w ++ [{| call_observer := observer;
                                call_method := name;
                                call_statuses := statuses |}]) w)
  else raise (AttributeError observer name).

(** Returns True if a statuses dict has no PENDING statuses. *)
Definition _has_no_pendings (statuses : Statuses) : bool :=
  forallb (fun s => bool_decide (s <> PENDING)) (dict_values statuses).

(** [self._observers.pop(observer)] *)
Definition observers_pop (observer : Observer) : M unit :=
  do w <- get_world;
  match dict_pop (_observers w) observer with
  | Some rest => modify (set_observers rest)
  | None => raise (KeyError (inr observer))
  end.

(** [self._pending.pop(batch_id)] *)
Definition pending_pop (batch_id : string) : M unit :=
  do w <- get_world;
  match dict_pop (_pending w) batch_id with
  | Some rest => modify (set_pending rest)
  | None => raise (KeyError (inl batch_id))
  end.

(** The loop of [_update_observers] over the copy of the registry. The copy
    is shallow: [statuses] is the very dict the registry holds for
    [observer], so that [statuses[batch_id] = status] changes the entry of
    the registry too ([dict_store]). *)
Fixpoint _update_observers_loop (batch_id : string) (status : BatchStatus)
    (snapshot : list (Observer * Statuses)) : M unit :=
  match snapshot with
  | [] => ret tt
  | (observer, statuses) :: rest =>
      (if dict_contains statuses batch_id then
         let statuses := dict_setitem statuses batch_id status in
         modify (fun w =>
           set_observers (dict_store (_observers w) observer statuses) w) ;;
         if _has_no_pendings statuses then
           invoke observer "notify_batches_finished" statuses ;;
           observers_pop observer
         else ret tt
       else ret tt) ;;
      _update_observers_loop batch_id status rest
  end.

(** Updates each observer tracking a particular batch with its new status.
    If all statuses are no longer pending, notifies the observer and
    removes it from the list. *)
Definition _update_observers (batch_id : string) (status : BatchStatus) : M unit :=
  do w <- get_world;
  _update_observers_loop batch_id status (_observers w).

Fixpoint notify_store_updated_loop (snapshot : list string) : M unit :=
  match snapshot with
  | [] => ret tt
  | batch_id :: rest =>
      do w <- get_world;
      (if has_batch (_block_store w) batch_id then
         pending_pop batch_id ;;
         _update_observers batch_id COMMITTED
       else ret tt) ;;
      notify_store_updated_loop rest
  end.

(** Removes batches from the pending set if found in the block store, and
    notifies any observers. *)
Definition notify_store_updated : M unit :=
  do w <- get_world;
  notify_store_updated_loop (dict_keys (_pending w)).

Definition make_txn_info (txn_id : string) (message : option string)
    (extended_data : option (list byte)) : TxnInfo :=
  {| info_id := txn_id;
     info_message := message;
     info_extended_data := extended_data |}.

(** [self._invalid[batch_id] = txn_info] *)
Definition invalid_setitem (batch_id : string) (txn_info : TxnInfo) : M unit :=
  modify (fun w =>
    set_invalid (timed_setitem (clock w) (_invalid w) batch_id txn_info) w).

(** The loop of [notify_txn_invalid]; it returns at the first match. *)
Fixpoint notify_txn_invalid_loop (txn_id : string) (txn_info : TxnInfo)
    (snapshot : list (string * gset string)) : M unit :=
  match snapshot with
  | [] => ret tt
  | (batch_id, txn_ids) :: rest =>
      if bool_decide (txn_id ∈ txn_ids) then
        invalid_setitem batch_id txn_info ;;
        pending_pop batch_id ;;
        _update_observers batch_id INVALID
      else notify_txn_invalid_loop txn_id txn_info rest
  end.

(** Adds a batch id to the invalid cache along with the id of the
    transaction that was rejected and any error message or extended data.
    Removes that batch id from the pending set. *)
Definition notify_txn_invalid (txn_id : string) (message : option string)
    (extended_data : option (list byte)) : M unit :=
  let txn_info := make_txn_info txn_id message extended_data in
  do w <- get_world;
  notify_txn_invalid_loop txn_id txn_info (_pending w).

(** The names bound to a str where the body of [notify_batch_pending]
    runs. Its parameters and local ([self], [batch], [txn_ids]) and the
    globals of the module (the imports, [INVALID_KEEP_TIME], the two
    classes) are bound to other objects and none of them is spelled
    [batch_id], which is no builtin either: no name is left. *)
Definition notify_batch_pending_names (batch : Batch) : list (string * string) := [].

(** Evaluating a name: NameError when it is not bound. *)
Definition load_name (names : list (string * string)) (name : string) : M string :=
  match dict_get names name with
  | Some value => ret value
  | None => raise (NameError name)
  end.

(** Adds a Batch id to the pending cache, with its transaction ids. The
    last line of the method passes the name [batch_id], not
    [batch.header_signature]. *)
Definition notify_batch_pending (batch : Batch) : M unit :=
  let txn_ids : gset string :=
    list_to_set (map txn_header_signature (transactions batch)) in
  modify (fun w =>
    set_pending (dict_setitem (_pending w) (header_signature batch) txn_ids) w) ;;
  do batch_id <- load_name (notify_batch_pending_names batch) "batch_id";
  _update_observers batch_id PENDING.

(** Returns the status enum for a batch. *)
Definition get_status (batch_id : string) : M BatchStatus :=
  do w <- get_world;
  if has_batch (_block_store w) batch_id then ret COMMITTED
  else if timed_contains (clock w) (_invalid w) batch_id then ret INVALID
  else if dict_contains (_pending w) batch_id then ret PENDING
  else ret UNKNOWN.

(** The dict comprehension of [get_statuses], from left to right. *)
Fixpoint get_statuses_from (acc : Statuses) (batch_ids : list string) : M Statuses :=
  match batch_ids with
  | [] => ret acc
  | b :: rest =>
      do s <- get_status b;
      get_statuses_from (dict_setitem acc b s) rest
  end.

(** Returns a statuses dict for the requested batches. *)
Definition get_statuses (batch_ids : list string) : M Statuses :=
  get_statuses_from [] batch_ids.

(** Fetches the id of the Transaction that failed within a particular
    Batch, as well as any error message or other data about the failure.
    Raises KeyError if the specified batch is not invalid. *)
Definition get_invalid_txn_info (batch_id : string) : M TxnInfo :=
  do w <- get_world;
  match timed_get (clock w) (_invalid w) batch_id with
  | Some txn_info => ret txn_info
  | None =>
      raise (KeyError
        (inl ("Specified batch id not in invalid cache: " +:+ batch_id)))
  end.

(** Allows a component to register to be notified when a set of batches is
    no longer PENDING. *)
Definition watch_statuses (observer : Observer) (batch_ids : list string) : M unit :=
  do statuses <- get_statuses batch_ids;
  if _has_no_pendings statuses then
    invoke observer "notify_finished" statuses
  else
    modify (fun w =>
      set_observers (dict_setitem (_observers w) observer statuses) w).

(** ** Runs *)

(** What can happen to a tracker: the calls of its producers and consumers,
    a change of the block store, time passing. *)
Inductive Op :=
| NotifyStoreUpdated
| NotifyTxnInvalid (txn_id : string) (message : option string)
    (extended_data : option (list byte))
| NotifyBatchPending (batch : Batch)
| GetStatus (batch_id : string)
| GetStatuses (batch_ids : list string)
| GetInvalidTxnInfo (batch_id : string)
| WatchStatuses (observer : Observer) (batch_ids : list string)
| BlockStoreUpdate (block_store : BlockStore)
| Tick (seconds : nat).

Definition step (op : Op) (w : World) : World :=
  match op with
  | NotifyStoreUpdated => exec notify_store_updated w
  | NotifyTxnInvalid txn_id message extended_data =>
      exec (notify_txn_invalid txn_id message extended_data) w
  | NotifyBatchPending batch => exec (notify_batch_pending batch) w
  | GetStatus batch_id => exec (get_status batch_id) w
  | GetStatuses batch_ids => exec (get_statuses batch_ids) w
  | GetInvalidTxnInfo batch_id => exec (get_invalid_txn_info batch_id) w
  | WatchStatuses observer batch_ids => exec (watch_statuses observer batch_ids) w
  | BlockStoreUpdate block_store => set_block_store block_store w
  | Tick seconds => set_clock (clock w + seconds) w
  end.

Definition run (ops : list Op) (w : World) : World :=
  fold_left (fun w op => step op w) ops w.

(** The states a tracker can be in. *)
Inductive reachable : World -> Prop :=
| reachable_init block_store now : reachable (init block_store now)
| reachable_step op w : reachable w -> reachable (step op w).


(** ** The effect of an emission, as functions of the registry *)

(** The entry of an observer once [batch_id] has the status [status]. *)
Definition updated (batch_id : string) (status : BatchStatus)
    (statuses : Statuses) : Statuses :=
  if dict_contains statuses batch_id
  then dict_setitem statuses batch_id status
  else statuses.

(** The entry tracks [batch_id] and has no PENDING status left once
    [batch_id] has the status [status]. *)
Definition resolved_by (batch_id : string) (status : BatchStatus)
    (statuses : Statuses) : bool :=
  dict_contains statuses batch_id
  && _has_no_pendings (dict_setitem statuses batch_id status).

(** The registry after the emission: resolved observers are gone. *)
Fixpoint emit_observers (batch_id : string) (status : BatchStatus)
    (registry : list (Observer * Statuses)) : list (Observer * Statuses) :=
  match registry with
  | [] => []
  | (observer, statuses) :: rest =>
      if resolved_by batch_id status statuses
      then emit_observers batch_id status rest
      else (observer, updated batch_id status statuses)
             :: emit_observers batch_id status rest
  end.

(** The calls of the emission, in the order of the registry. *)
Fixpoint emit_calls (batch_id : string) (status : BatchStatus)
    (registry : list (Observer * Statuses)) : list Call :=
  match registry with
  | [] => []
  | (observer, statuses) :: rest =>
      if resolved_by batch_id status statuses
      then {| call_observer := observer;
              call_method := "notify_batches_finished";
              call_statuses := dict_setitem statuses batch_id status |}
             :: emit_calls batch_id status rest
      else emit_calls batch_id status rest
  end.

Definition emit (batch_id : string) (status : BatchStatus) (w : World) : World :=
  set_calls (calls w ++ emit_calls batch_id status (_observers w))
    (set_observers (emit_observers batch_id status (_observers w)) w).

(** The emissions of a list of batches, in order. *)
Definition emit_all (status : BatchStatus) (batch_ids : list string)
    (w : World) : World :=
  fold_left (fun w batch_id => emit batch_id status w) batch_ids w.

(** The pending batches that the block store has, in the order of the
    pending dict. *)
Definition committed_pending (w : World) : list string :=
  filter (fun b => has_batch (_block_store w) b = true) (dict_keys (_pending w)).

(** The calls made on one observer. *)
Definition calls_on (o : Observer) (l : list Call) : list Call :=
  filter (fun c => call_observer c = o) l.



(** ** Invariants *)

(** Every entry of the registry is a dict and still has a PENDING status. *)
Definition registry_inv (registry : list (Observer * Statuses)) : Prop :=
  dict_wf registry /\
  Forall (fun os => dict_wf os.2 /\ _has_no_pendings os.2 = false) registry.

Definition tracker_inv (w : World) : Prop :=
  dict_wf (_pending w) /\ registry_inv (_observers w).

(** ** The queries as functions of the state *)

Definition status_of (w : World) (batch_id : string) : BatchStatus :=
  if has_batch (_block_store w) batch_id then COMMITTED
  else if timed_contains (clock w) (_invalid w) batch_id then INVALID
  else if dict_contains (_pending w) batch_id then PENDING
  else UNKNOWN.

Definition statuses_from (w : World) (acc : Statuses) (batch_ids : list string) : Statuses :=
  fold_left (fun acc b => dict_setitem acc b (status_of w b)) batch_ids acc.

Definition statuses_of (w : World) (batch_ids : list string) : Statuses :=
  statuses_from w [] batch_ids.

(** The state after the sweep of [notify_store_updated]. *)
Definition swept (w : World) : World :=
  set_pending
    (filter (fun kv => has_batch (_block_store w) kv.1 = false) (_pending w))
    (emit_all COMMITTED (committed_pending w) w).

(** The state after [notify_txn_invalid] found [txn_id] in [batch_id]. *)
Definition invalidated (batch_id : string) (txn_info : TxnInfo) (w : World) : World :=
  emit batch_id INVALID
    (set_pending (dict_delete (_pending w) batch_id)
       (set_invalid (timed_setitem (clock w) (_invalid w) batch_id txn_info) w)).

(** The first batch, in the order of the pending dict, that has the
    transaction. *)
Fixpoint batch_of_txn (txn_id : string) (pending : list (string * gset string))
    : option string :=
  match pending with
  | [] => None
  | (batch_id, txn_ids) :: rest =>
      if bool_decide (txn_id ∈ txn_ids) then Some batch_id
      else batch_of_txn txn_id rest
  end.

(** The state after an operation, as a function; it is what [step] computes
    in the states that satisfy [tracker_inv]. *)
Definition next (op : Op) (w : World) : World :=
  match op with
  | NotifyStoreUpdated => swept w
  | NotifyTxnInvalid txn_id message extended_data =>
      match batch_of_txn txn_id (_pending w) with
      | Some batch_id =>
          invalidated batch_id (make_txn_info txn_id message extended_data) w
      | None => w
      end
  | NotifyBatchPending batch =>
      set_pending
        (dict_setitem (_pending w) (header_signature batch)
           (list_to_set (map txn_header_signature (transactions batch)))) w
  | GetStatus _ | GetStatuses _ | GetInvalidTxnInfo _ => w
  | WatchStatuses observer batch_ids =>
      let statuses := statuses_of w batch_ids in
      if _has_no_pendings statuses then
        if hasattr observer "notify_finished" then
          set_calls (calls w ++ [{| call_observer := observer;
                                    call_method := "notify_finished";
                                    call_statuses := statuses |}]) w
        else w
      else set_observers (dict_setitem (_observers w) observer statuses) w
  | BlockStoreUpdate block_store => set_block_store block_store w
  | Tick seconds => set_clock (clock w + seconds) w
  end.

(** The transaction ids of a batch, as [notify_batch_pending] collects
    them. *)
Definition txn_ids_of (batch : Batch) : gset string :=
  list_to_set (map txn_header_signature (transactions batch)).

(** A run in which no batch is admitted while the cache of invalid batches
    holds its id. *)
Fixpoint admits_fresh (ops : list Op) (w : World) : Prop :=
  match ops with
  | [] => True
  | op :: rest =>
      match op with
      | NotifyBatchPending batch =>
          timed_contains (clock w) (_invalid w) (header_signature batch) = false
      | _ => True
      end /\ admits_fresh rest (step op w)
  end.

(** No batch id is a key of the pending dict and of the cache of invalid
    batches at once. *)
Definition exclusive (w : World) : Prop :=
  forall batch_id,
    dict_contains (_pending w) batch_id = true ->
    timed_contains (clock w) (_invalid w) batch_id = true ->
    False.

(** ** Sample data *)

Definition empty_store : BlockStore := {| has_batch := fun _ => false |}.

Definition store_of (batch_ids : list string) : BlockStore :=
  {| has_batch := fun b => bool_decide (b ∈ batch_ids) |}.

Definition batch_B : Batch :=
  {| header_signature := "B";
     transactions := [ {| txn_header_signature := "t1" |};
                       {| txn_header_signature := "t2" |} ] |}.

Definition batch_C : Batch :=
  {| header_signature := "C";
     transactions := [ {| txn_header_signature := "t3" |} ] |}.

(** An observer whose class defines [notify_batches_finished] only, and one
    that has a [notify_finished] method as well. *)
Definition plain_observer : Observer := {| obs_id := 1; obs_attrs := [] |}.
Definition eager_observer : Observer :=
  {| obs_id := 2; obs_attrs := ["notify_finished"] |}.

(** A tracker with the pending batches B and C, B watched by one observer
    and both by another, before and after the block store gets B. *)
Definition watched_world : World :=
  run [NotifyBatchPending batch_B; NotifyBatchPending batch_C;
       WatchStatuses eager_observer ["B"];
       WatchStatuses plain_observer ["B"; "C"]]
      (init empty_store 0).

Definition committed_world : World :=
  step (BlockStoreUpdate (store_of ["B"])) watched_world.

(** The batch B admitted, rejected for its transaction t1, and admitted
    again. *)
Definition rejected_world : World :=
  run [NotifyBatchPending batch_B; NotifyTxnInvalid "t1" (Some "bad sig") None]
      (init empty_store 0).

Definition readmitted_world : World :=
  step (NotifyBatchPending batch_B) rejected_world.

(** [awaiting] and [notified] with a property of the statuses that the
    observer holds, or that were passed to it. *)
Definition awaiting_with (P : Statuses -> Prop) (o : Observer)
    (registry : list (Observer * Statuses)) (new : list Call) : Prop :=
  calls_on o new = [] /\
  exists m, dict_get registry o = Some m /\ P m.

Definition notified_with (P : Statuses -> Prop) (o : Observer)
    (registry : list (Observer * Statuses)) (new : list Call) : Prop :=
  exists c,
    calls_on o new = [c] /\ P (call_statuses c) /\ dict_get registry o = None.

(** The statuses [m] have the batch ids of [m0], in the same order, and no
    PENDING where [m0] has none. *)
Definition settles (m0 m : Statuses) : Prop :=
  dict_keys m = dict_keys m0 /\
  forall b, dict_get m0 b <> Some PENDING -> dict_get m b <> Some PENDING.

(** ** Transitions, observer by observer *)

(** No batch id has the status PENDING in the dict. *)
Definition no_PENDING (m : Statuses) : Prop :=
  forall b, dict_get m b <> Some PENDING.

(** What the transition of [batch_id] to [status] does between the states
    [w] and [w']. The calls made are calls of [notify_batches_finished].
    An observer that is not registered stays so and is not called. A
    registered observer whose statuses do not have [batch_id] keeps them
    and is not called. One whose statuses have [batch_id] gets [status]
    for it: when no PENDING is left, it is called once with the new
    statuses and is out of the registry; otherwise the registry holds the
    new statuses and it is not called. *)
Definition transition (batch_id : string) (status : BatchStatus)
    (w w' : World) : Prop :=
  exists new,
    calls w' = calls w ++ new /\
    Forall (fun c => call_method c = "notify_batches_finished") new /\
    forall o,
      match dict_get (_observers w) o with
      | None => dict_get (_observers w') o = None /\ calls_on o new = []
      | Some m =>
          match dict_get m batch_id with
          | None => dict_get (_observers w') o = Some m /\ calls_on o new = []
          | Some _ =>
              (no_PENDING (dict_setitem m batch_id status) ->
               dict_get (_observers w') o = None /\
               calls_on o new =
                 [{| call_observer := o;
                     call_method := "notify_batches_finished";
                     call_statuses := dict_setitem m batch_id status |}]) /\
              (~ no_PENDING (dict_setitem m batch_id status) ->
               dict_get (_observers w') o
                 = Some (dict_setitem m batch_id status) /\
               calls_on o new = [])
          end
      end.

(** The transitions of a list of batches to [status], one after the
    other. *)
Fixpoint transitions (status : BatchStatus) (batch_ids : list string)
    (w w' : World) : Prop :=
  match batch_ids with
  | [] => _observers w' = _observers w /\ calls w' = calls w
  | batch_id :: rest =>
      exists w1,
        transition batch_id status w w1 /\ transitions status rest w1 w'
  end.



(** The seconds that pass in a run. *)
Fixpoint elapsed (ops : list Op) : nat :=
  match ops with
  | [] => 0
  | Tick seconds :: rest => seconds + elapsed rest
  | _ :: rest => elapsed rest
  end.


(** * Properties *)

(** ** Dicts *)

Section py_dict_facts.
Context {K V : Type} `{EqDecision K}.
Implicit Types (d : list (K * V)) (k : K) (v : V).

Lemma dict_contains_false d k :
  dict_contains d k = false <-> dict_get d k = None.
Proof. unfold dict_contains. by destruct (dict_get d k). Qed.

Lemma dict_contains_true d k :
  dict_contains d k = true <-> exists v, dict_get d k = Some v.
Proof.
  unfold dict_contains. destruct (dict_get d k) as [v|].
  - split; eauto.
  - split; [done | by intros [v ?]].
Qed.

Lemma dict_keys_cons k v d : dict_keys ((k, v) :: d) = k :: dict_keys d.
Proof. done. Qed.

Lemma dict_get_None d k : dict_get d k = None <-> k ∉ dict_keys d.
Proof.
  unfold dict_keys. induction d as [|[k' v'] d IH]; simpl.
  - split; [intros _; apply not_elem_of_nil | done].
  - rewrite not_elem_of_cons. destruct (decide (k' = k)) as [->|Hne].
    + split; [done | by intros [? _]].
    + rewrite IH. split; [intros Hk; split; [congruence | exact Hk] | by intros [_ Hk]].
Qed.

Lemma dict_contains_keys d k :
  dict_contains d k = true <-> k ∈ dict_keys d.
Proof.
  destruct (dict_contains d k) eqn:Hc.
  - split; [intros _ | done].
    destruct (decide (k ∈ dict_keys d)) as [|Hn]; [done|].
    apply dict_get_None, dict_contains_false in Hn. congruence.
  - split; [done | intros Hin].
    apply dict_contains_false, dict_get_None in Hc. done.
Qed.

Lemma dict_get_elem d k v : dict_get d k = Some v -> (k, v) ∈ d.
Proof.
  induction d as [|[k' v'] d IH]; simpl; [done|].
  destruct (decide (k' = k)) as [->|Hne].
  - intros [= ->]. apply list_elem_of_here.
  - intros Hg. apply list_elem_of_further. auto.
Qed.

Lemma dict_wf_cons k v d :
  dict_wf ((k, v) :: d) <-> (k ∉ dict_keys d) /\ dict_wf d.
Proof. unfold dict_wf, dict_keys. simpl. apply NoDup_cons. Qed.

Lemma dict_elem_get d k v : dict_wf d -> (k, v) ∈ d -> dict_get d k = Some v.
Proof.
  induction d as [|[k' v'] d IH]; simpl; intros Hwf Hin.
  - by apply elem_of_nil in Hin.
  - apply dict_wf_cons in Hwf as [Hk Hwf].
    apply elem_of_cons in Hin as [[= -> ->]|Hin].
    + by rewrite decide_True.
    + rewrite decide_False; [auto|].
      intros ->. apply Hk. unfold dict_keys.
      apply (list_elem_of_fmap_2 fst) in Hin. done.
Qed.

Lemma dict_get_setitem d k v k' :
  dict_get (dict_setitem d k v) k' =
    if decide (k = k') then Some v else dict_get d k'.
Proof.
  induction d as [|[k0 v0] d IH]; simpl.
  - done.
  - destruct (decide (k0 = k)) as [->|Hne]; simpl.
    + by destruct (decide (k = k')).
    + destruct (decide (k0 = k')) as [->|Hne'].
      * by rewrite decide_False.
      * done.
Qed.

Lemma dict_keys_setitem d k v :
  dict_keys (dict_setitem d k v) =
    if dict_contains d k then dict_keys d else dict_keys d ++ [k].
Proof.
  induction d as [|[k0 v0] d IH]; [done|].
  unfold dict_contains. cbn [dict_setitem dict_get].
  destruct (decide (k0 = k)) as [->|Hne]; [done|].
  rewrite !dict_keys_cons, IH. unfold dict_contains.
  by destruct (dict_get d k).
Qed.

Lemma dict_wf_setitem d k v : dict_wf d -> dict_wf (dict_setitem d k v).
Proof.
  unfold dict_wf. rewrite dict_keys_setitem.
  destruct (dict_contains d k) eqn:Hc; [done|].
  intros Hwf. apply NoDup_app. split; [done|]. split.
  - intros x Hx Hk. apply list_elem_of_singleton in Hk as ->.
    apply dict_contains_keys in Hx. congruence.
  - apply NoDup_singleton.
Qed.

Lemma dict_filter_absent d k :
  k ∉ dict_keys d -> filter (fun kv : K * V => kv.1 <> k) d = d.
Proof.
  induction d as [|[k0 v0] d IH]; [done|].
  rewrite dict_keys_cons, not_elem_of_cons. intros [Hne Hk].
  rewrite filter_cons_True by (simpl; congruence). by rewrite IH.
Qed.

(** Deleting a key of a dict is filtering it out. *)
Lemma dict_delete_filter d k :
  dict_wf d -> dict_delete d k = filter (fun kv : K * V => kv.1 <> k) d.
Proof.
  induction d as [|[k0 v0] d IH]; simpl; intros Hwf; [done|].
  apply dict_wf_cons in Hwf as [Hk Hwf].
  destruct (decide (k0 = k)) as [->|Hne].
  - rewrite filter_cons_False by (simpl; intros Hn; by apply Hn).
    by rewrite dict_filter_absent.
  - rewrite filter_cons_True by done. by rewrite IH.
Qed.

Lemma dict_keys_filter (P : K -> Prop) `{!forall k, Decision (P k)} d :
  dict_keys (filter (fun kv : K * V => P kv.1) d) = filter P (dict_keys d).
Proof.
  induction d as [|[k0 v0] d IH]; [done|].
  rewrite dict_keys_cons. destruct (decide (P k0)) as [Hp|Hp].
  - rewrite !filter_cons_True by done. by rewrite dict_keys_cons, IH.
  - rewrite !filter_cons_False by done. done.
Qed.

Lemma dict_wf_filter (P : K -> Prop) `{!forall k, Decision (P k)} d :
  dict_wf d -> dict_wf (filter (fun kv : K * V => P kv.1) d).
Proof. unfold dict_wf. rewrite dict_keys_filter. apply NoDup_filter. Qed.

Lemma dict_get_filter (P : K -> Prop) `{!forall k, Decision (P k)} d k :
  dict_get (filter (fun kv : K * V => P kv.1) d) k =
    if decide (P k) then dict_get d k else None.
Proof.
  induction d as [|[k0 v0] d IH]; simpl.
  - by destruct (decide (P k)).
  - destruct (decide (P k0)) as [Hp|Hp].
    + rewrite filter_cons_True by done. simpl.
      destruct (decide (k0 = k)) as [->|Hne]; [|done].
      by destruct (decide (P k)).
    + rewrite filter_cons_False by done. rewrite IH.
      destruct (decide (k0 = k)) as [->|Hne]; [|done].
      by destruct (decide (P k)).
Qed.

Lemma dict_wf_delete d k : dict_wf d -> dict_wf (dict_delete d k).
Proof.
  intros Hwf. rewrite dict_delete_filter by done.
  exact (dict_wf_filter (fun k' => k' <> k) d Hwf).
Qed.

Lemma dict_get_delete d k k' :
  dict_wf d ->
  dict_get (dict_delete d k) k' = if decide (k = k') then None else dict_get d k'.
Proof.
  intros Hwf. rewrite dict_delete_filter by done.
  etrans; [exact (dict_get_filter (fun k0 => k0 <> k) d k')|].
  destruct (decide (k = k')) as [->|Hne].
  - destruct (decide (k' <> k')) as [Hn|_]; [by destruct Hn | done].
  - destruct (decide (k' <> k)) as [_|Hn]; [done | destruct Hn; congruence].
Qed.

Lemma dict_pop_Some d k :
  dict_contains d k = true -> dict_pop d k = Some (dict_delete d k).
Proof. unfold dict_pop. by intros ->. Qed.

(** Writing through the reference held by the entry of [k]. *)
Lemma dict_store_app d1 k v0 v d2 :
  k ∉ dict_keys d1 ->
  dict_store (d1 ++ (k, v0) :: d2) k v = d1 ++ (k, v) :: d2.
Proof.
  induction d1 as [|[k1 v1] d1 IH]; simpl.
  - intros _. by rewrite decide_True.
  - rewrite dict_keys_cons, not_elem_of_cons. intros [Hne Hk].
    rewrite decide_False by congruence. by rewrite IH.
Qed.

Lemma dict_get_app d1 d2 k :
  dict_get (d1 ++ d2) k =
    match dict_get d1 k with Some v => Some v | None => dict_get d2 k end.
Proof.
  induction d1 as [|[k1 v1] d1 IH]; simpl; [done|].
  by destruct (decide (k1 = k)).
Qed.

Lemma dict_delete_app d1 k v d2 :
  k ∉ dict_keys d1 -> dict_delete (d1 ++ (k, v) :: d2) k = d1 ++ d2.
Proof.
  induction d1 as [|[k1 v1] d1 IH]; simpl.
  - intros _. by rewrite decide_True.
  - rewrite dict_keys_cons, not_elem_of_cons. intros [Hne Hk].
    rewrite decide_False by congruence. by rewrite IH.
Qed.

Lemma dict_keys_app d1 d2 : dict_keys (d1 ++ d2) = dict_keys d1 ++ dict_keys d2.
Proof. unfold dict_keys. apply fmap_app. Qed.

Lemma dict_wf_app_cons d1 k v d2 :
  dict_wf (d1 ++ (k, v) :: d2) ->
(k ∉ dict_keys d1) /\ dict_wf (d1 ++ d2) /\
  forall v', dict_wf ((d1 ++ [(k, v')]) ++ d2).
Proof.
  unfold dict_wf. rewrite !dict_keys_app, dict_keys_cons.
  intros Hwf. split; [|split].
  - apply NoDup_app in Hwf as (_ & Hd & _). intros Hk. apply (Hd k Hk).
    apply list_elem_of_here.
  - apply NoDup_app in Hwf as (H1 & Hd & H2). apply NoDup_cons in H2 as [? ?].
    apply NoDup_app. split; [done|]. split; [|done].
    intros x Hx Hx'. apply (Hd x Hx). by apply list_elem_of_further.
  - intros v'. rewrite !dict_keys_app, dict_keys_cons. simpl.
    by rewrite <- app_assoc.
Qed.
End py_dict_facts.

(** ** The monad *)

Lemma bind_Ok {A B} (c : M A) (k : A -> M B) w w' a :
  c w = (w', Ok a) -> bind c k w = k a w'.
Proof. unfold bind. by intros ->. Qed.

Lemma modify_run (f : World -> World) w : modify f w = (f w, Ok tt).
Proof. done. Qed.

Lemma observers_pop_run o w :
  dict_contains (_observers w) o = true ->
  observers_pop o w = (set_observers (dict_delete (_observers w) o) w, Ok tt).
Proof.
  intros Hc. unfold observers_pop, bind, get_world.
  by rewrite (dict_pop_Some _ _ Hc).
Qed.

Lemma pending_pop_run b w :
  dict_contains (_pending w) b = true ->
  pending_pop b w = (set_pending (dict_delete (_pending w) b) w, Ok tt).
Proof.
  intros Hc. unfold pending_pop, bind, get_world.
  by rewrite (dict_pop_Some _ _ Hc).
Qed.

Lemma invoke_notify_batches_finished o statuses w :
  invoke o "notify_batches_finished" statuses w =
    (set_calls (calls w ++ [{| call_observer := o;
                               call_method := "notify_batches_finished";
                               call_statuses := statuses |}]) w, Ok tt).
Proof. done. Qed.

(** One step of a computation whose first part is known to return. *)
Ltac run_step H := erewrite bind_Ok; [| apply H ].

(** ** Emissions *)

Lemma _update_observers_loop_emit batch_id status snapshot :
  forall seen w,
    _observers w = seen ++ snapshot ->
    dict_wf (seen ++ snapshot) ->
    _update_observers_loop batch_id status snapshot w =
      (set_calls (calls w ++ emit_calls batch_id status snapshot)
         (set_observers (seen ++ emit_observers batch_id status snapshot) w),
       Ok tt).
Proof.
  induction snapshot as [|[o m] rest IH]; intros seen w Hobs Hwf.
  - destruct w; simpl in *; subst. unfold ret, set_calls, set_observers; simpl.
    by rewrite !app_nil_r.
  - cbn [_update_observers_loop emit_calls emit_observers].
    unfold resolved_by, updated.
    apply dict_wf_app_cons in Hwf as (Hseen & Hwf1 & Hwf2).
    destruct (dict_contains m batch_id) eqn:Hc; cbn [andb].
    + pose proof (dict_store_app seen o m (dict_setitem m batch_id status) rest Hseen) as Hst.
      pose proof (dict_delete_app seen o (dict_setitem m batch_id status) rest Hseen) as Hdel.
      destruct (_has_no_pendings (dict_setitem m batch_id status)) eqn:Hnp.
      * erewrite bind_Ok; cycle 1.
        { run_step modify_run. run_step invoke_notify_batches_finished.
          apply observers_pop_run. simpl. rewrite Hobs, Hst.
          apply dict_contains_true. exists (dict_setitem m batch_id status).
          rewrite dict_get_app.
          apply dict_get_None in Hseen. rewrite Hseen. simpl.
          by rewrite decide_True. }
        rewrite (IH seen); simpl.
        -- rewrite Hobs, Hst, Hdel. destruct w; simpl.
           unfold set_calls, set_observers; simpl. by rewrite <- app_assoc.
        -- by rewrite Hobs, Hst, Hdel.
        -- done.
      * erewrite bind_Ok; cycle 1.
        { run_step modify_run. reflexivity. }
        rewrite (IH (seen ++ [(o, dict_setitem m batch_id status)])); simpl.
        -- rewrite Hobs, Hst. destruct w; simpl.
           unfold set_calls, set_observers; simpl. by rewrite <- app_assoc.
        -- rewrite Hobs, Hst. by rewrite <- app_assoc.
        -- done.
    + erewrite bind_Ok; [|reflexivity].
      rewrite (IH (seen ++ [(o, m)])).
      * destruct w; simpl. unfold set_calls, set_observers; simpl.
        by rewrite <- app_assoc.
      * rewrite Hobs. by rewrite <- app_assoc.
      * done.
Qed.

(** [_update_observers] on a registry with unique keys is [emit]. *)
Lemma _update_observers_emit batch_id status w :
  dict_wf (_observers w) ->
  _update_observers batch_id status w = (emit batch_id status w, Ok tt).
Proof.
  intros Hwf. unfold _update_observers, bind, get_world.
  by rewrite (_update_observers_loop_emit batch_id status (_observers w) [] w).
Qed.

(** ** The registry after an emission *)

Lemma emit_observers_keys batch_id status registry :
  sublist (dict_keys (emit_observers batch_id status registry))
          (dict_keys registry).
Proof.
  induction registry as [|[o m] rest IH]; [done|].
  cbn [emit_observers]. destruct (resolved_by batch_id status m).
  - rewrite dict_keys_cons. by apply sublist_cons.
  - rewrite !dict_keys_cons. by apply sublist_skip.
Qed.

Lemma emit_observers_wf batch_id status registry :
  dict_wf registry -> dict_wf (emit_observers batch_id status registry).
Proof.
  unfold dict_wf. intros Hwf.
  eapply sublist_NoDup; [done | apply emit_observers_keys].
Qed.

Lemma emit_observers_get batch_id status registry o :
  dict_wf registry ->
  dict_get (emit_observers batch_id status registry) o =
    match dict_get registry o with
    | Some m =>
        if resolved_by batch_id status m then None
        else Some (updated batch_id status m)
    | None => None
    end.
Proof.
  induction registry as [|[o' m'] rest IH]; [done|].
  intros Hwf. apply dict_wf_cons in Hwf as [Hk Hwf].
  cbn [emit_observers dict_get].
  destruct (decide (o' = o)) as [->|Hne].
  - destruct (resolved_by batch_id status m') eqn:Hr.
    + apply dict_get_None. intros Hin. apply Hk.
      eapply elem_of_sublist; [done | apply emit_observers_keys].
    + cbn [dict_get]. by rewrite decide_True.
  - destruct (resolved_by batch_id status m') eqn:Hr.
    + by apply IH.
    + cbn [dict_get]. rewrite decide_False by done. by apply IH.
Qed.

Lemma emit_calls_on batch_id status registry o :
  dict_wf registry ->
  calls_on o (emit_calls batch_id status registry) =
    match dict_get registry o with
    | Some m =>
        if resolved_by batch_id status m
        then [{| call_observer := o;
                 call_method := "notify_batches_finished";
                 call_statuses := dict_setitem m batch_id status |}]
        else []
    | None => []
    end.
Proof.
  unfold calls_on.
  induction registry as [|[o' m'] rest IH]; [done|].
  intros Hwf. apply dict_wf_cons in Hwf as [Hk Hwf].
  cbn [emit_calls dict_get].
  destruct (decide (o' = o)) as [->|Hne].
  - apply dict_get_None in Hk. rewrite Hk in IH.
    destruct (resolved_by batch_id status m') eqn:Hr.
    + rewrite filter_cons_True by done. by rewrite IH.
    + by apply IH.
  - destruct (resolved_by batch_id status m') eqn:Hr.
    + rewrite filter_cons_False by done. by apply IH.
    + by apply IH.
Qed.

Lemma updated_wf batch_id status m : dict_wf m -> dict_wf (updated batch_id status m).
Proof.
  unfold updated. destruct (dict_contains m batch_id); [|done].
  apply dict_wf_setitem.
Qed.

Lemma emit_observers_inv batch_id status registry :
  registry_inv registry -> registry_inv (emit_observers batch_id status registry).
Proof.
  intros [Hwf Hall]. split; [by apply emit_observers_wf|].
  clear Hwf. induction Hall as [|[o m] rest [Hm Hp] Hall IH]; [constructor|].
  cbn [emit_observers]. simpl in Hm, Hp.
  destruct (resolved_by batch_id status m) eqn:Hr; [done|].
  constructor; [|done]. simpl. split; [by apply updated_wf|].
  unfold resolved_by in Hr. unfold updated.
  destruct (dict_contains m batch_id); [done|done].
Qed.

(** ** The methods, run *)

Lemma get_status_run batch_id w :
  get_status batch_id w = (w, Ok (status_of w batch_id)).
Proof.
  unfold get_status, status_of, bind, get_world, ret.
  destruct (has_batch (_block_store w) batch_id); [done|].
  destruct (timed_contains (clock w) (_invalid w) batch_id); [done|].
  by destruct (dict_contains (_pending w) batch_id).
Qed.

Lemma get_statuses_from_run batch_ids :
  forall acc w,
    get_statuses_from acc batch_ids w = (w, Ok (statuses_from w acc batch_ids)).
Proof.
  induction batch_ids as [|b rest IH]; intros acc w; [done|].
  cbn [get_statuses_from]. run_step get_status_run. by rewrite IH.
Qed.

Lemma get_statuses_run batch_ids w :
  get_statuses batch_ids w = (w, Ok (statuses_of w batch_ids)).
Proof. apply get_statuses_from_run. Qed.

Lemma statuses_from_wf w batch_ids :
  forall acc, dict_wf acc -> dict_wf (statuses_from w acc batch_ids).
Proof.
  induction batch_ids as [|b rest IH]; intros acc Hwf; [done|].
  apply IH. by apply dict_wf_setitem.
Qed.

Lemma statuses_of_wf w batch_ids : dict_wf (statuses_of w batch_ids).
Proof. apply statuses_from_wf. apply NoDup_nil_2. Qed.

Lemma watch_statuses_run observer batch_ids w :
  watch_statuses observer batch_ids w =
    let statuses := statuses_of w batch_ids in
    if _has_no_pendings statuses then
      if hasattr observer "notify_finished" then
        (set_calls (calls w ++ [{| call_observer := observer;
                                   call_method := "notify_finished";
                                   call_statuses := statuses |}]) w, Ok tt)
      else (w, Raised (AttributeError observer "notify_finished"))
    else
      (set_observers (dict_setitem (_observers w) observer statuses) w, Ok tt).
Proof.
  unfold watch_statuses. run_step get_statuses_run. cbv zeta.
  destruct (_has_no_pendings (statuses_of w batch_ids)); [|done].
  unfold invoke. by destruct (hasattr observer "notify_finished").
Qed.

Lemma notify_batch_pending_run batch w :
  notify_batch_pending batch w =
    (set_pending
       (dict_setitem (_pending w) (header_signature batch)
          (list_to_set (map txn_header_signature (transactions batch)))) w,
     Raised (NameError "batch_id")).
Proof. done. Qed.

Lemma get_invalid_txn_info_run batch_id w :
  get_invalid_txn_info batch_id w =
    (w, match timed_get (clock w) (_invalid w) batch_id with
        | Some txn_info => Ok txn_info
        | None =>
            Raised (KeyError
              (inl ("Specified batch id not in invalid cache: " +:+ batch_id)))
        end).
Proof.
  unfold get_invalid_txn_info, bind, get_world.
  by destruct (timed_get (clock w) (_invalid w) batch_id).
Qed.

Lemma notify_txn_invalid_loop_miss txn_id txn_info snapshot w :
  (forall b txns, (b, txns) ∈ snapshot -> txn_id ∉ txns) ->
  notify_txn_invalid_loop txn_id txn_info snapshot w = (w, Ok tt).
Proof.
  induction snapshot as [|[b txns] rest IH]; intros Hmiss; [done|].
  cbn [notify_txn_invalid_loop].
  rewrite bool_decide_eq_false_2 by (eapply Hmiss; apply list_elem_of_here).
  apply IH. intros b' txns' Hin. eapply Hmiss. by apply list_elem_of_further.
Qed.

Lemma notify_txn_invalid_loop_hit txn_id txn_info before batch_id txns after w :
  (forall b t, (b, t) ∈ before -> txn_id ∉ t) ->
  txn_id ∈ txns ->
  dict_contains (_pending w) batch_id = true ->
  dict_wf (_observers w) ->
  notify_txn_invalid_loop txn_id txn_info
      (before ++ (batch_id, txns) :: after) w =
    (invalidated batch_id txn_info w, Ok tt).
Proof.
  intros Hmiss Hin Hc Hwf.
  induction before as [|[b t] rest IH]; simpl.
  - rewrite bool_decide_eq_true_2 by done.
    unfold invalid_setitem. run_step modify_run.
    run_step pending_pop_run; [|done].
    by rewrite _update_observers_emit.
  - rewrite bool_decide_eq_false_2 by (eapply Hmiss; apply list_elem_of_here).
    apply IH. intros b' t' Hin'. eapply Hmiss. by apply list_elem_of_further.
Qed.

(** ** The sweep of the pending batches *)

Lemma set_pending_id w : set_pending (_pending w) w = w.
Proof. by destruct w. Qed.

Lemma set_pending_twice p q w : set_pending p (set_pending q w) = set_pending p w.
Proof. done. Qed.

Lemma emit_set_pending batch_id status p w :
  emit batch_id status (set_pending p w) = set_pending p (emit batch_id status w).
Proof. done. Qed.

Lemma emit_all_set_pending status batch_ids :
  forall p w,
    emit_all status batch_ids (set_pending p w) =
      set_pending p (emit_all status batch_ids w).
Proof.
  induction batch_ids as [|b rest IH]; intros p w; [done|].
  unfold emit_all in *. simpl. by rewrite emit_set_pending, IH.
Qed.

Lemma emit_all_cons status b rest w :
  emit_all status (b :: rest) w = emit_all status rest (emit b status w).
Proof. done. Qed.

(** An emission changes the registry and the log of calls only. *)
Lemma emit_all_frame status batch_ids :
  forall w,
    _block_store (emit_all status batch_ids w) = _block_store w /\
    _invalid (emit_all status batch_ids w) = _invalid w /\
    _pending (emit_all status batch_ids w) = _pending w /\
    clock (emit_all status batch_ids w) = clock w.
Proof.
  induction batch_ids as [|b rest IH]; intros w; [done|].
  rewrite emit_all_cons. destruct (IH (emit b status w)) as (-> & -> & -> & ->).
  done.
Qed.

Lemma emit_all_observers_wf status batch_ids :
  forall w,
    dict_wf (_observers w) -> dict_wf (_observers (emit_all status batch_ids w)).
Proof.
  induction batch_ids as [|b rest IH]; intros w Hwf; [done|].
  rewrite emit_all_cons. apply IH. by apply emit_observers_wf.
Qed.

Lemma filter_ext_elem {A} (P1 P2 : A -> Prop)
    `{!forall x, Decision (P1 x), !forall x, Decision (P2 x)} (l : list A) :
  (forall x, x ∈ l -> P1 x <-> P2 x) -> filter P1 l = filter P2 l.
Proof.
  induction l as [|a l IH]; intros Hext; [done|].
  assert (filter P1 l = filter P2 l) as Hl.
  { apply IH. intros x Hx. apply Hext. by apply list_elem_of_further. }
  destruct (decide (P1 a)) as [Ha|Ha].
  - rewrite !filter_cons_True; [by rewrite Hl | | done].
    apply Hext; [apply list_elem_of_here | done].
  - rewrite !filter_cons_False; [done | | done].
    intros Ha'. apply Ha. apply Hext; [apply list_elem_of_here | done].
Qed.

Lemma filter_all {A} (P : A -> Prop) `{!forall x, Decision (P x)} (l : list A) :
  (forall x, x ∈ l -> P x) -> filter P l = l.
Proof.
  induction l as [|a l IH]; intros Hall; [done|].
  rewrite filter_cons_True by (apply Hall, list_elem_of_here).
  rewrite IH; [done|]. intros x Hx. by apply Hall, list_elem_of_further.
Qed.

Lemma notify_store_updated_loop_run snapshot :
  forall w,
    NoDup snapshot ->
    (forall b, b ∈ snapshot -> dict_contains (_pending w) b = true) ->
    dict_wf (_pending w) ->
    dict_wf (_observers w) ->
    notify_store_updated_loop snapshot w =
      (set_pending
         (filter (fun kv => ~ (kv.1 ∈ snapshot /\
                               has_batch (_block_store w) kv.1 = true))
                 (_pending w))
         (emit_all COMMITTED
            (filter (fun b => has_batch (_block_store w) b = true) snapshot) w),
       Ok tt).
Proof.
  induction snapshot as [|b rest IH]; intros w Hnd Hin Hwfp Hwfo.
  - simpl. unfold ret. f_equal.
    rewrite filter_all; [by rewrite set_pending_id|].
    intros kv _ [Hk _]. by apply elem_of_nil in Hk.
  - apply NoDup_cons in Hnd as [Hb Hnd].
    cbn [notify_store_updated_loop]. unfold bind at 1, get_world.
    destruct (has_batch (_block_store w) b) eqn:Hhb.
    + erewrite bind_Ok; cycle 1.
      { run_step pending_pop_run; [|apply Hin, list_elem_of_here].
        by apply _update_observers_emit. }
      rewrite IH; cycle 1.
      { done. }
      { intros b' Hb'. simpl. apply dict_contains_true.
        rewrite dict_get_delete by done.
        rewrite decide_False by (intros ->; done).
        apply dict_contains_true, Hin. by apply list_elem_of_further. }
      { simpl. by apply dict_wf_delete. }
      { simpl. by apply emit_observers_wf. }
      f_equal. rewrite emit_set_pending, emit_all_set_pending, set_pending_twice.
      rewrite filter_cons_True by done. rewrite emit_all_cons.
      f_equal. simpl. rewrite dict_delete_filter by done.
      rewrite list_filter_filter. apply list_filter_iff.
      intros [k v]; simpl. split.
      * intros [Hn Hne] [Hk Hh]. apply elem_of_cons in Hk as [->|Hk]; [done|].
        apply Hn. done.
      * intros Hn. split.
        -- intros [Hk Hh]. apply Hn. split; [by apply list_elem_of_further|done].
        -- intros ->. apply Hn. split; [apply list_elem_of_here|done].
    + erewrite bind_Ok; [|reflexivity].
      rewrite IH; [|done| |done|done].
      * f_equal. rewrite filter_cons_False by congruence. f_equal.
        apply list_filter_iff. intros [k v]; simpl. split.
        -- intros Hn [Hk Hh]. apply elem_of_cons in Hk as [->|Hk]; [congruence|].
           apply Hn. done.
        -- intros Hn [Hk Hh]. apply Hn. split; [by apply list_elem_of_further|done].
      * intros b' Hb'. apply Hin. by apply list_elem_of_further.
Qed.

Lemma notify_store_updated_run w :
  dict_wf (_pending w) ->
  dict_wf (_observers w) ->
  notify_store_updated w = (swept w, Ok tt).
Proof.
  intros Hwfp Hwfo. unfold notify_store_updated, bind, get_world.
  rewrite notify_store_updated_loop_run; [|done| |done|done].
  - unfold swept, committed_pending. f_equal. f_equal.
    apply filter_ext_elem. intros [k v] Hkv; simpl. split.
    + intros Hn. destruct (has_batch (_block_store w) k) eqn:Hh; [|done].
      destruct Hn. split; [|done].
      apply (list_elem_of_fmap_2 fst) in Hkv. done.
    + intros Hh [_ Hh']. congruence.
  - intros b Hb. by apply dict_contains_keys.
Qed.

Lemma dict_get_unswept w b :
  dict_get
    (filter (fun kv => has_batch (_block_store w) kv.1 = false) (_pending w)) b =
  if has_batch (_block_store w) b then None else dict_get (_pending w) b.
Proof.
  etrans; [exact (dict_get_filter
                    (fun k => has_batch (_block_store w) k = false) _ b)|].
  destruct (has_batch (_block_store w) b) eqn:Hh;
    destruct (decide _); congruence.
Qed.

(** ** Steps *)

Lemma batch_of_txn_None txn_id pending :
  batch_of_txn txn_id pending = None <->
  forall b txns, (b, txns) ∈ pending -> txn_id ∉ txns.
Proof.
  induction pending as [|[b0 t0] rest IH]; simpl.
  - split; [|done]. intros _ b txns Hin. by apply elem_of_nil in Hin.
  - destruct (decide (txn_id ∈ t0)) as [Hin|Hnin].
    + rewrite bool_decide_eq_true_2 by done. split; [done|].
      intros Hall. destruct (Hall b0 t0); [apply list_elem_of_here|done].
    + rewrite bool_decide_eq_false_2 by done. rewrite IH. split.
      * intros Hall b txns Hb. apply elem_of_cons in Hb as [[= -> ->]|Hb]; eauto.
      * intros Hall b txns Hb. eapply Hall. by apply list_elem_of_further.
Qed.

Lemma batch_of_txn_Some txn_id pending batch_id :
  batch_of_txn txn_id pending = Some batch_id <->
  exists before txns after,
    pending = before ++ (batch_id, txns) :: after /\
    (forall b t, (b, t) ∈ before -> txn_id ∉ t) /\
    txn_id ∈ txns.
Proof.
  induction pending as [|[b0 t0] rest IH]; simpl.
  - split; [done|]. intros (before & txns & after & Heq & _).
    by destruct before.
  - destruct (decide (txn_id ∈ t0)) as [Hin|Hnin].
    + rewrite bool_decide_eq_true_2 by done. split.
      * intros [= ->]. exists [], t0, rest. split; [done|]. split; [|done].
        intros b t Hb. by apply elem_of_nil in Hb.
      * intros (before & txns & after & Heq & Hmiss & Htx).
        destruct before as [|[b1 t1] before]; simpl in Heq.
        -- by injection Heq as -> _ _.
        -- injection Heq as -> -> _.
           destruct (Hmiss b1 t1); [apply list_elem_of_here|done].
    + rewrite bool_decide_eq_false_2 by done. rewrite IH. split.
      * intros (before & txns & after & -> & Hmiss & Htx).
        exists ((b0, t0) :: before), txns, after. split; [done|].
        split; [|done]. intros b t Hb.
        apply elem_of_cons in Hb as [[= -> ->]|Hb]; eauto.
      * intros (before & txns & after & Heq & Hmiss & Htx).
        destruct before as [|[b1 t1] before]; simpl in Heq.
        -- injection Heq as -> -> _. done.
        -- injection Heq as -> -> ->. exists before, txns, after.
           split; [done|]. split; [|done].
           intros b t Hb. eapply Hmiss. by apply list_elem_of_further.
Qed.

Lemma notify_txn_invalid_run txn_id message extended_data w :
  dict_wf (_observers w) ->
  notify_txn_invalid txn_id message extended_data w =
    (next (NotifyTxnInvalid txn_id message extended_data) w, Ok tt).
Proof.
  intros Hwf. unfold notify_txn_invalid, bind, get_world. cbn [next].
  destruct (batch_of_txn txn_id (_pending w)) as [batch_id|] eqn:Hb.
  - apply batch_of_txn_Some in Hb as (before & txns & after & Hp & Hmiss & Htx).
    rewrite Hp. apply notify_txn_invalid_loop_hit; [done|done| |done].
    apply dict_contains_keys. rewrite Hp, dict_keys_app, dict_keys_cons.
    apply elem_of_app. right. apply list_elem_of_here.
  - apply notify_txn_invalid_loop_miss. by apply batch_of_txn_None.
Qed.

(** [next] is what the methods do. *)
Lemma step_next op w : tracker_inv w -> step op w = next op w.
Proof.
  intros (Hwfp & Hwfo & _). destruct op; cbn [step next]; unfold exec.
  - by rewrite notify_store_updated_run.
  - by rewrite notify_txn_invalid_run.
  - done.
  - by rewrite get_status_run.
  - by rewrite get_statuses_run.
  - by rewrite get_invalid_txn_info_run.
  - rewrite watch_statuses_run. cbv zeta.
    destruct (_has_no_pendings (statuses_of w batch_ids)); [|done].
    by destruct (hasattr observer "notify_finished").
  - done.
  - done.
Qed.

(** ** The invariant of the tracker *)

Lemma dict_setitem_Forall {K V} `{EqDecision K} (P : K * V -> Prop)
    (d : list (K * V)) k v :
  Forall P d -> P (k, v) -> Forall P (dict_setitem d k v).
Proof.
  intros Hall Hkv. induction Hall as [|[k0 v0] d H0 Hall IH]; simpl.
  - by constructor.
  - destruct (decide (k0 = k)) as [->|Hne]; by constructor.
Qed.

Lemma emit_inv batch_id status w :
  tracker_inv w -> tracker_inv (emit batch_id status w).
Proof.
  intros [Hwfp Hreg]. split; [done|]. by apply emit_observers_inv.
Qed.

Lemma emit_all_inv status batch_ids :
  forall w, tracker_inv w -> tracker_inv (emit_all status batch_ids w).
Proof.
  induction batch_ids as [|b rest IH]; intros w Hinv; [done|].
  rewrite emit_all_cons. by apply IH, emit_inv.
Qed.

Lemma set_pending_inv p w :
  dict_wf p -> tracker_inv w -> tracker_inv (set_pending p w).
Proof. intros Hp [_ Hreg]. by split. Qed.

Lemma next_inv op w : tracker_inv w -> tracker_inv (next op w).
Proof.
  intros Hinv. destruct op; cbn [next]; try done.
  - unfold swept. apply set_pending_inv; [|by apply emit_all_inv].
    destruct Hinv as [Hwfp _].
    exact (dict_wf_filter
             (fun k => has_batch (_block_store w) k = false) _ Hwfp).
  - destruct (batch_of_txn txn_id (_pending w)); [|done].
    unfold invalidated. apply emit_inv.
    apply set_pending_inv; [apply dict_wf_delete, Hinv|].
    destruct Hinv. by split.
  - apply set_pending_inv; [|done]. apply dict_wf_setitem, Hinv.
  - cbv zeta. destruct (_has_no_pendings (statuses_of w batch_ids)) eqn:Hnp.
    + destruct (hasattr observer "notify_finished"); [|done].
      destruct Hinv. by split.
    + destruct Hinv as (Hwfp & Hwfo & Hall). split; [done|]. split.
      * by apply dict_wf_setitem.
      * apply dict_setitem_Forall; [done|]. simpl.
        split; [apply statuses_of_wf | done].
Qed.

Lemma step_inv op w : tracker_inv w -> tracker_inv (step op w).
Proof. intros Hinv. rewrite step_next by done. by apply next_inv. Qed.

Lemma init_inv block_store now : tracker_inv (init block_store now).
Proof.
  split; [apply NoDup_nil_2|]. split; [apply NoDup_nil_2 | constructor].
Qed.

Lemma reachable_inv w : reachable w -> tracker_inv w.
Proof.
  induction 1 as [block_store now | op w _ IH].
  - apply init_inv.
  - by apply step_inv.
Qed.


Lemma run_app ops1 ops2 w : run (ops1 ++ ops2) w = run ops2 (run ops1 w).
Proof. unfold run. apply fold_left_app. Qed.

Lemma run_reachable ops :
  forall w, reachable w -> reachable (run ops w).
Proof.
  induction ops as [|op ops IH]; intros w Hr; [done|].
  simpl. apply IH. by constructor.
Qed.

Lemma next_keep_time op w :
  keep_time (_invalid (next op w)) = keep_time (_invalid w).
Proof.
  destruct op; cbn [next]; try done.
  - unfold swept, set_pending. cbn [_invalid].
    by destruct (emit_all_frame COMMITTED (committed_pending w) w) as (_ & -> & _).
  - by destruct (batch_of_txn txn_id (_pending w)).
  - cbv zeta. destruct (_has_no_pendings _); [|done]. by destruct (hasattr _ _).
Qed.

(** The cache of a tracker keeps its entries for an hour. *)
Lemma reachable_keep_time w :
  reachable w -> keep_time (_invalid w) = INVALID_KEEP_TIME.
Proof.
  induction 1 as [block_store now | op w Hr IH]; [done|].
  rewrite step_next by (by apply reachable_inv). by rewrite next_keep_time.
Qed.

Lemma timed_get_setitem now c key value :
  0 < keep_time c ->
  timed_get now (timed_setitem now c key value) key = Some value.
Proof.
  intros Hkeep. unfold timed_get, timed_setitem. cbn.
  rewrite dict_get_setitem, decide_True by done.
  by rewrite decide_True by lia.
Qed.

(** ** Transitions, observer by observer *)

Lemma _has_no_pendings_no_PENDING m :
  _has_no_pendings m = true -> no_PENDING m.
Proof.
  unfold _has_no_pendings, dict_values. intros Hall b Hb.
  apply dict_get_elem in Hb. apply (list_elem_of_fmap_2 snd) in Hb.
  rewrite forallb_forall in Hall. apply list_elem_of_In, Hall in Hb.
  cbn in Hb. by apply bool_decide_eq_true in Hb.
Qed.

Lemma _has_no_pendings_some_PENDING m :
  dict_wf m -> _has_no_pendings m = false ->
  exists b, dict_get m b = Some PENDING.
Proof.
  induction m as [|[b0 s0] m IH]; [done|].
  intros Hwf. apply dict_wf_cons in Hwf as [Hk Hwf].
  change (_has_no_pendings ((b0, s0) :: m))
    with (bool_decide (s0 <> PENDING) && _has_no_pendings m).
  destruct (decide (s0 = PENDING)) as [->|Hne].
  - intros _. exists b0. cbn. by rewrite decide_True.
  - rewrite bool_decide_eq_true_2 by done. cbn [andb]. intros Hm.
    destruct (IH Hwf Hm) as [b Hb]. exists b. cbn.
    rewrite decide_False; [done|]. intros ->.
    apply dict_get_None in Hk. congruence.
Qed.

Lemma emit_calls_method batch_id status registry :
  Forall (fun c => call_method c = "notify_batches_finished")
         (emit_calls batch_id status registry).
Proof.
  induction registry as [|[o m] rest IH]; [constructor|].
  cbn [emit_calls]. destruct (resolved_by batch_id status m); [|done].
  by constructor.
Qed.

Lemma emit_transition batch_id status w :
  tracker_inv w -> transition batch_id status w (emit batch_id status w).
Proof.
  intros (_ & Hwfo & Hall).
  exists (emit_calls batch_id status (_observers w)).
  split; [done|]. split; [apply emit_calls_method|]. intros o.
  cbn [emit _observers set_calls set_observers].
  rewrite emit_observers_get, emit_calls_on by done.
  destruct (dict_get (_observers w) o) as [m|] eqn:Hm; [|done].
  assert (dict_wf m) as Hwfm.
  { apply dict_get_elem in Hm. rewrite Forall_forall in Hall.
    by destruct (Hall _ Hm). }
  unfold resolved_by, updated, dict_contains.
  destruct (dict_get m batch_id) as [s|]; cbn [andb]; [|done].
  destruct (_has_no_pendings (dict_setitem m batch_id status)) eqn:Hnp.
  - apply _has_no_pendings_no_PENDING in Hnp. split; [done|].
    intros Hn. by destruct Hn.
  - apply _has_no_pendings_some_PENDING in Hnp as [b Hb];
      [|by apply dict_wf_setitem].
    split; [|done]. intros Hn. by destruct (Hn b).
Qed.

Lemma emit_all_transitions status batch_ids :
  forall w,
    tracker_inv w ->
    transitions status batch_ids w (emit_all status batch_ids w).
Proof.
  induction batch_ids as [|b rest IH]; intros w Hinv; [done|].
  rewrite emit_all_cons. exists (emit b status w).
  split; [by apply emit_transition|]. apply IH. by apply emit_inv.
Qed.

(** A transition looks at the registry and at the calls only. *)
Lemma transition_frame batch_id status w1 w1' w2 w2' :
  _observers w1 = _observers w2 -> calls w1 = calls w2 ->
  _observers w1' = _observers w2' -> calls w1' = calls w2' ->
  transition batch_id status w1 w1' -> transition batch_id status w2 w2'.
Proof. unfold transition. by intros <- <- <- <-. Qed.

Lemma transitions_frame status batch_ids :
  forall w1 w2 w1' w2',
    _observers w1 = _observers w2 -> calls w1 = calls w2 ->
    _observers w1' = _observers w2' -> calls w1' = calls w2' ->
    transitions status batch_ids w1 w1' -> transitions status batch_ids w2 w2'.
Proof.
  induction batch_ids as [|b rest IH]; intros w1 w2 w1' w2' Ho Hc Ho' Hc'.
  - cbn. intros [? ?]. split; congruence.
  - cbn. intros (w & Ht & Hrest). exists w. split.
    + by apply (transition_frame b status w1 w w2 w).
    + by apply (IH w w w1' w2').
Qed.

(** ** The clock and the cache over a run *)

Lemma next_clock op w :
  clock (next op w) = clock w + elapsed [op].
Proof.
  destruct op; cbn [next elapsed]; rewrite ?Nat.add_0_r; try done.
  - unfold swept, set_pending. cbn [clock].
    by destruct (emit_all_frame COMMITTED (committed_pending w) w)
      as (_ & _ & _ & ->).
  - by destruct (batch_of_txn txn_id (_pending w)).
  - cbv zeta. destruct (_has_no_pendings _); [|done]. by destruct (hasattr _ _).
Qed.

Lemma next_invalid_kept op w :
  (forall txn_id message extended_data,
     op <> NotifyTxnInvalid txn_id message extended_data) ->
  _invalid (next op w) = _invalid w.
Proof.
  intros Hop. destruct op; cbn [next]; try done.
  - unfold swept, set_pending. cbn [_invalid].
    by destruct (emit_all_frame COMMITTED (committed_pending w) w)
      as (_ & -> & _).
  - by destruct (Hop txn_id message extended_data).
  - cbv zeta. destruct (_has_no_pendings _); [|done]. by destruct (hasattr _ _).
Qed.

Lemma elapsed_cons op ops : elapsed (op :: ops) = elapsed [op] + elapsed ops.
Proof. destruct op; cbn; lia. Qed.

Lemma run_without_rejection ops :
  forall w,
    tracker_inv w ->
    (forall txn_id message extended_data,
       NotifyTxnInvalid txn_id message extended_data ∉ ops) ->
    _invalid (run ops w) = _invalid w /\
    clock (run ops w) = clock w + elapsed ops.
Proof.
  induction ops as [|op ops IH]; intros w Hinv Hops.
  - cbn. split; [done | lia].
  - simpl run. rewrite step_next by done.
    destruct (IH (next op w)) as [-> ->].
    + by apply next_inv.
    + intros t m e Hin. eapply Hops. by apply list_elem_of_further.
    + rewrite next_invalid_kept, next_clock, (elapsed_cons op ops).
      * split; [done | lia].
      * intros t m e ->. eapply Hops. apply list_elem_of_here.
Qed.

(** * The claims *)

(** ** Admission of a batch *)

(** C1 (as the code behaves): [notify_batch_pending] stores the batch with
    its transaction ids in the pending dict and then raises NameError for
    the unbound name [batch_id]: it never returns normally, and it never
    reaches [_update_observers], so that no entry of the registry is set to
    PENDING and no observer is called. *)
Theorem notify_batch_pending_raises_NameError (batch : Batch) (w : World) :
  snd (notify_batch_pending batch w) = Raised (NameError "batch_id") /\
  _pending (exec (notify_batch_pending batch) w) =
    dict_setitem (_pending w) (header_signature batch) (txn_ids_of batch) /\
  _observers (exec (notify_batch_pending batch) w) = _observers w /\
  calls (exec (notify_batch_pending batch) w) = calls w.
Proof. by rewrite (notify_batch_pending_run batch w). Qed.

Lemma status_of_pending w batch_id :
  has_batch (_block_store w) batch_id = false ->
  timed_contains (clock w) (_invalid w) batch_id = false ->
  dict_contains (_pending w) batch_id = true ->
  status_of w batch_id = PENDING.
Proof. unfold status_of. by intros -> -> ->. Qed.

(** C10 (amended): [notify_batch_pending] changes the pending dict before
    the emission, the emission fails, and the change stays: the batch is in
    the pending dict with its transaction ids afterwards, and [get_status]
    then returns PENDING for it when the block store does not have the
    batch and the cache of invalid batches does not hold its id. *)
Theorem notify_batch_pending_not_rolled_back (batch : Batch) (w : World) :
  has_batch (_block_store w) (header_signature batch) = false ->
  timed_contains (clock w) (_invalid w) (header_signature batch) = false ->
  exists e,
    snd (notify_batch_pending batch w) = Raised e /\
    dict_get (_pending (exec (notify_batch_pending batch) w))
      (header_signature batch) = Some (txn_ids_of batch) /\
    snd (get_status (header_signature batch)
           (exec (notify_batch_pending batch) w)) = Ok PENDING.
Proof.
  intros Hstore Hinvalid. exists (NameError "batch_id").
  rewrite notify_batch_pending_run. unfold exec. cbn [fst snd].
  split; [done|]. split.
  - cbn. rewrite dict_get_setitem. by rewrite decide_True.
  - rewrite get_status_run. cbn [snd]. f_equal.
    apply status_of_pending; [done|done|].
    apply dict_contains_true. exists (txn_ids_of batch).
    cbn. rewrite dict_get_setitem. by rewrite decide_True.
Qed.

Lemma notify_batch_pending_not_rolled_back_witness :
  has_batch (_block_store (init empty_store 0)) "B" = false /\
  timed_contains 0 (_invalid (init empty_store 0)) "B" = false /\
  exists e,
    snd (notify_batch_pending batch_B (init empty_store 0)) = Raised e /\
    dict_get (_pending (exec (notify_batch_pending batch_B) (init empty_store 0)))
      "B" = Some (txn_ids_of batch_B) /\
    snd (get_status "B" (exec (notify_batch_pending batch_B) (init empty_store 0)))
      = Ok PENDING.
Proof.
  split; [reflexivity|]. split; [reflexivity|].
  apply (notify_batch_pending_not_rolled_back batch_B (init empty_store 0));
    reflexivity.
Defined.

(** C10 as stated fails: a batch that the block store already has is
    admitted, the emission fails, the batch is in the pending dict, and
    [get_status] returns COMMITTED, not PENDING. *)
Lemma admitted_committed_batch_is_not_PENDING :
  (exists e, snd (notify_batch_pending batch_B (init (store_of ["B"]) 0)) = Raised e) /\
  dict_contains
    (_pending (exec (notify_batch_pending batch_B) (init (store_of ["B"]) 0)))
    "B" = true /\
  snd (get_status "B"
         (exec (notify_batch_pending batch_B) (init (store_of ["B"]) 0)))
    = Ok COMMITTED /\
  snd (get_status "B"
         (exec (notify_batch_pending batch_B) (init (store_of ["B"]) 0)))
    <> Ok PENDING.
Proof.
  split; [by eexists|]. split; [by vm_compute|]. split; [by vm_compute|].
  by vm_compute.
Qed.

(** ** Status queries *)

(** C7: [get_status] returns, changes nothing, and decides in a fixed
    order: COMMITTED when the block store has the batch, else INVALID when
    the cache of invalid batches holds the id, else PENDING when the
    pending dict holds it, else UNKNOWN. *)
Theorem get_status_precedence (batch_id : string) (w : World) :
  exists status,
    get_status batch_id w = (w, Ok status) /\
    (has_batch (_block_store w) batch_id = true -> status = COMMITTED) /\
    (has_batch (_block_store w) batch_id = false ->
     timed_contains (clock w) (_invalid w) batch_id = true ->
     status = INVALID) /\
    (has_batch (_block_store w) batch_id = false ->
     timed_contains (clock w) (_invalid w) batch_id = false ->
     dict_contains (_pending w) batch_id = true ->
     status = PENDING) /\
    (has_batch (_block_store w) batch_id = false ->
     timed_contains (clock w) (_invalid w) batch_id = false ->
     dict_contains (_pending w) batch_id = false ->
     status = UNKNOWN).
Proof.
  exists (status_of w batch_id). split; [apply get_status_run|].
  unfold status_of.
  destruct (has_batch (_block_store w) batch_id),
    (timed_contains (clock w) (_invalid w) batch_id),
    (dict_contains (_pending w) batch_id); repeat split; congruence.
Qed.

(** C9: [get_invalid_txn_info] returns the record that the cache of invalid
    batches gives for the batch id, and raises KeyError with a message that
    ends with the batch id when the cache has none (absent or expired); the
    state is the same afterwards in both cases. *)
Theorem get_invalid_txn_info_found_or_KeyError (batch_id : string) (w : World) :
  match timed_get (clock w) (_invalid w) batch_id with
  | Some txn_info => get_invalid_txn_info batch_id w = (w, Ok txn_info)
  | None =>
      get_invalid_txn_info batch_id w =
        (w, Raised (KeyError
              (inl ("Specified batch id not in invalid cache: " +:+ batch_id))))
  end.
Proof.
  rewrite get_invalid_txn_info_run.
  by destruct (timed_get (clock w) (_invalid w) batch_id).
Qed.

(** ** Watching *)

(** C2 (as the code behaves): [watch_statuses] computes the statuses of the
    batch ids. When none is PENDING it looks up the attribute
    [notify_finished] on the observer, not [notify_batches_finished]: for
    an observer without such an attribute it raises AttributeError, no call
    is made and nothing changes; for an observer that has one, that method
    is called with the statuses; in both cases the observer is not
    registered and [notify_batches_finished] is not called. When a status
    is PENDING the statuses are stored in the registry under the observer
    and no call is made. *)
Theorem watch_statuses_calls_notify_finished (observer : Observer)
    (batch_ids : list string) (statuses : Statuses) (w : World) :
  get_statuses batch_ids w = (w, Ok statuses) ->
  (_has_no_pendings statuses = true ->
   hasattr observer "notify_finished" = false ->
   watch_statuses observer batch_ids w =
     (w, Raised (AttributeError observer "notify_finished"))) /\
  (_has_no_pendings statuses = true ->
   hasattr observer "notify_finished" = true ->
   watch_statuses observer batch_ids w =
     (set_calls (calls w ++ [{| call_observer := observer;
                                call_method := "notify_finished";
                                call_statuses := statuses |}]) w, Ok tt)) /\
  (_has_no_pendings statuses = false ->
   watch_statuses observer batch_ids w =
     (set_observers (dict_setitem (_observers w) observer statuses) w, Ok tt)).
Proof.
  intros Hst. rewrite get_statuses_run in Hst.
  injection Hst as <-. rewrite watch_statuses_run. cbv zeta.
  split_and!.
  - by intros -> ->.
  - by intros -> ->.
  - by intros ->.
Qed.

Lemma watch_statuses_calls_notify_finished_witness :
  get_statuses ["B1"; "B2"] (init (store_of ["B1"]) 0) =
    (init (store_of ["B1"]) 0, Ok [("B1", COMMITTED); ("B2", UNKNOWN)]) /\
  _has_no_pendings [("B1", COMMITTED); ("B2", UNKNOWN)] = true /\
  hasattr plain_observer "notify_finished" = false /\
  watch_statuses plain_observer ["B1"; "B2"] (init (store_of ["B1"]) 0) =
    (init (store_of ["B1"]) 0,
     Raised (AttributeError plain_observer "notify_finished")).
Proof.
  split; [reflexivity|]. split; [reflexivity|]. split; [reflexivity|].
  apply (watch_statuses_calls_notify_finished plain_observer ["B1"; "B2"]
           [("B1", COMMITTED); ("B2", UNKNOWN)] (init (store_of ["B1"]) 0));
    reflexivity.
Defined.

(** ** Rejection of a transaction *)

Lemma updated_get_ne batch_id status m b :
  b <> batch_id -> dict_get (updated batch_id status m) b = dict_get m b.
Proof.
  intros Hne. unfold updated. destruct (dict_contains m batch_id); [|done].
  rewrite dict_get_setitem. by rewrite decide_False.
Qed.

Lemma emit_observers_entry batch_id status registry o m' :
  dict_wf registry ->
  dict_get (emit_observers batch_id status registry) o = Some m' ->
  exists m, dict_get registry o = Some m /\ m' = updated batch_id status m.
Proof.
  intros Hwf. rewrite emit_observers_get by done.
  destruct (dict_get registry o) as [m|]; [|done].
  destruct (resolved_by batch_id status m); [done|].
  intros [= <-]. by exists m.
Qed.

(** C5: when the transaction is in a pending batch, [notify_txn_invalid]
    acts on the first such batch B in the order of the pending dict. It
    writes the record with the id of the transaction, the message and the
    extended data under B in the cache of invalid batches, where
    [get_invalid_txn_info] then finds it; it takes B out of the pending
    dict; and it makes the transition of B to INVALID: every observer whose
    statuses have B gets INVALID for it, and is called by
    [notify_batches_finished] and removed when no PENDING is left. The
    other batches keep their entries in the pending dict, in the cache and
    in every observer's statuses, the block store and the clock are
    untouched. When no pending batch has the transaction, the call returns
    and the state is unchanged. *)
Theorem notify_txn_invalid_first_match (txn_id : string)
    (message : option string) (extended_data : option (list byte)) (w : World) :
  reachable w ->
  (forall before batch_id txns after,
     _pending w = before ++ (batch_id, txns) :: after ->
     (forall b t, (b, t) ∈ before -> txn_id ∉ t) ->
     txn_id ∈ txns ->
     exists w',
       notify_txn_invalid txn_id message extended_data w = (w', Ok tt) /\
       _invalid w' =
         timed_setitem (clock w) (_invalid w) batch_id
           {| info_id := txn_id;
              info_message := message;
              info_extended_data := extended_data |} /\
       get_invalid_txn_info batch_id w' =
         (w', Ok {| info_id := txn_id;
                    info_message := message;
                    info_extended_data := extended_data |}) /\
       _pending w' = before ++ after /\
       dict_contains (_pending w') batch_id = false /\
       transition batch_id INVALID w w' /\
       w' = exec (_update_observers batch_id INVALID)
              (set_pending (before ++ after) (set_invalid (_invalid w') w)) /\
       _block_store w' = _block_store w /\
       clock w' = clock w /\
       (forall b, b <> batch_id ->
          dict_get (_pending w') b = dict_get (_pending w) b /\
          dict_get (cache_items (_invalid w')) b =
            dict_get (cache_items (_invalid w)) b) /\
       (forall o m', dict_get (_observers w') o = Some m' ->
          exists m, dict_get (_observers w) o = Some m /\
            forall b, b <> batch_id -> dict_get m' b = dict_get m b)) /\
  ((forall b t, (b, t) ∈ _pending w -> txn_id ∉ t) ->
   notify_txn_invalid txn_id message extended_data w = (w, Ok tt)).
Proof.
  intros Hr. pose proof (reachable_keep_time w Hr) as Hkeep.
  apply reachable_inv in Hr as Hinv. pose proof Hinv as (Hwfp & Hwfo & _).
  split.
  - intros before batch_id txns after Hp Hmiss Htx.
    exists (invalidated batch_id (make_txn_info txn_id message extended_data) w).
    assert (dict_delete (_pending w) batch_id = before ++ after) as Hdel.
    { rewrite Hp. apply dict_delete_app.
      rewrite Hp in Hwfp. by apply dict_wf_app_cons in Hwfp as (? & _). }
    split_and!.
    + rewrite notify_txn_invalid_run by done. cbn [next].
      replace (batch_of_txn txn_id (_pending w)) with (Some batch_id); [done|].
      symmetry. apply batch_of_txn_Some. by exists before, txns, after.
    + done.
    + rewrite get_invalid_txn_info_run. cbn.
      rewrite timed_get_setitem; [done|]. rewrite Hkeep.
      unfold INVALID_KEEP_TIME. lia.
    + done.
    + cbn. apply dict_contains_false. rewrite dict_get_delete by done.
      by rewrite decide_True.
    + apply (transition_frame batch_id INVALID w (emit batch_id INVALID w));
        [done|done|done|done|]. by apply emit_transition.
    + unfold exec. rewrite _update_observers_emit by done.
      cbn [fst]. unfold invalidated. by rewrite Hdel.
    + done.
    + done.
    + intros b Hne. cbn. split.
      * rewrite dict_get_delete by done. by rewrite decide_False.
      * rewrite dict_get_setitem. by rewrite decide_False.
    + intros o m' Hm'. cbn in Hm'.
      apply emit_observers_entry in Hm' as (m & Hm & ->); [|done].
      exists m. split; [done|]. intros b Hne. by apply updated_get_ne.
  - intros Hmiss. rewrite notify_txn_invalid_run by done. cbn [next].
    apply batch_of_txn_None in Hmiss. by rewrite Hmiss.
Qed.

(** ** The sweep after a store update *)

Lemma exec_update_observers_all status batch_ids :
  forall w,
    dict_wf (_observers w) ->
    fold_left (fun w b => exec (_update_observers b status) w) batch_ids w =
      emit_all status batch_ids w.
Proof.
  induction batch_ids as [|b rest IH]; intros w Hwf; [done|].
  rewrite emit_all_cons. simpl. unfold exec at 2.
  rewrite _update_observers_emit by done. cbn [fst].
  apply IH. by apply emit_observers_wf.
Qed.

(** C8: [notify_store_updated] returns; it takes out of the pending dict
    exactly the batches that the block store has, the others stay with
    their transaction ids and in their order; for the batches taken out, in
    the order of the pending dict, it makes the transition to COMMITTED:
    every observer whose statuses have the batch gets COMMITTED for it, and
    is called by [notify_batches_finished] and removed when no PENDING is
    left; nothing else changes. *)
Theorem notify_store_updated_sweeps (w : World) :
  reachable w ->
  exists w',
    notify_store_updated w = (w', Ok tt) /\
    _pending w' =
      filter (fun kv => has_batch (_block_store w) kv.1 = false) (_pending w) /\
    (forall b,
       dict_get (_pending w') b =
         if has_batch (_block_store w) b then None else dict_get (_pending w) b) /\
    transitions COMMITTED
      (filter (fun b => has_batch (_block_store w) b = true)
         (dict_keys (_pending w)))
      w w' /\
    _observers w' =
      _observers (fold_left (fun w b => exec (_update_observers b COMMITTED) w)
                    (committed_pending w) w) /\
    calls w' =
      calls (fold_left (fun w b => exec (_update_observers b COMMITTED) w)
               (committed_pending w) w) /\
    _invalid w' = _invalid w /\
    _block_store w' = _block_store w /\
    clock w' = clock w.
Proof.
  intros Hr. apply reachable_inv in Hr as Hinv.
  pose proof Hinv as (Hwfp & Hwfo & _).
  exists (swept w). split; [by apply notify_store_updated_run|].
  rewrite exec_update_observers_all by done.
  destruct (emit_all_frame COMMITTED (committed_pending w) w)
    as (Hs & Hi & Hp & Hc).
  split; [reflexivity|]. split.
  { intros b. apply dict_get_unswept. }
  split.
  { apply (transitions_frame COMMITTED (committed_pending w) w w
             (emit_all COMMITTED (committed_pending w) w));
      [done|done|done|done|]. by apply emit_all_transitions. }
  split; [reflexivity|]. split; [reflexivity|]. split; [exact Hi|].
  split; [exact Hs | exact Hc].
Qed.

(** ** Notification of observers *)

Lemma calls_on_app o l1 l2 : calls_on o (l1 ++ l2) = calls_on o l1 ++ calls_on o l2.
Proof. unfold calls_on. apply filter_app. Qed.










(** ** The pending dict and the cache of invalid batches over a run *)

Lemma next_pending_absent op w batch_id :
  tracker_inv w ->
  (forall batch, op = NotifyBatchPending batch -> header_signature batch <> batch_id) ->
  dict_contains (_pending w) batch_id = false ->
  dict_contains (_pending (next op w)) batch_id = false.
Proof.
  intros (Hwfp & _) Hop Habs. apply dict_contains_false in Habs.
  apply dict_contains_false.
  destruct op; cbn [next]; try done.
  - unfold swept, set_pending. cbn [_pending].
    rewrite dict_get_unswept, Habs. by destruct (has_batch _ _).
  - destruct (batch_of_txn txn_id (_pending w)) as [b|]; [|done].
    cbn. rewrite dict_get_delete by done. by destruct (decide _).
  - cbn. rewrite dict_get_setitem. rewrite decide_False; [done|]. by apply Hop.
  - cbv zeta. destruct (_has_no_pendings _); [|done].
    by destruct (hasattr _ _).
Qed.

(** C3 (amended): a batch id that is not in the pending dict, because a
    sweep or a rejection took it out or because it never was there, is not
    in the pending dict after any run, unless the run admits a batch with
    that id by [notify_batch_pending]. *)
Theorem removed_batch_stays_out (w : World) (batch_id : string) (ops : list Op) :
  reachable w ->
  dict_contains (_pending w) batch_id = false ->
  (forall batch, NotifyBatchPending batch ∈ ops ->
                 header_signature batch <> batch_id) ->
  dict_contains (_pending (run ops w)) batch_id = false.
Proof.
  intros Hr. apply reachable_inv in Hr. revert w Hr.
  induction ops as [|op ops IH]; intros w Hinv Habs Hops; [done|].
  simpl. rewrite step_next by done. apply IH.
  - by apply next_inv.
  - apply next_pending_absent; [done| |done].
    intros batch ->. apply Hops, list_elem_of_here.
  - intros batch Hin. by apply Hops, list_elem_of_further.
Qed.

Lemma removed_batch_stays_out_witness :
  reachable rejected_world /\
  dict_contains (_pending rejected_world) "B" = false /\
  (forall batch,
     NotifyBatchPending batch ∈
       [NotifyStoreUpdated; NotifyBatchPending batch_C;
        NotifyTxnInvalid "t3" None None] ->
     header_signature batch <> "B") /\
  dict_contains
    (_pending (run [NotifyStoreUpdated; NotifyBatchPending batch_C;
                    NotifyTxnInvalid "t3" None None] rejected_world))
    "B" = false.
Proof.
  assert (reachable rejected_world) as Hr.
  { apply run_reachable, reachable_init. }
  assert (forall batch,
     NotifyBatchPending batch ∈
       [NotifyStoreUpdated; NotifyBatchPending batch_C;
        NotifyTxnInvalid "t3" None None] ->
     header_signature batch <> "B") as Hops.
  { intros batch Hin.
    apply elem_of_cons in Hin as [Heq|Hin]; [discriminate Heq|].
    apply elem_of_cons in Hin as [Heq|Hin];
      [injection Heq as ->; discriminate|].
    apply elem_of_cons in Hin as [Heq|Hin]; [discriminate Heq|].
    by apply elem_of_nil in Hin. }
  split; [exact Hr|]. split; [reflexivity|]. split; [exact Hops|].
  apply (removed_batch_stays_out rejected_world "B" _ Hr); [reflexivity|exact Hops].
Defined.

(** C3 as stated fails: the batch B is pending, a rejection takes it out of
    the pending dict, and a second admission puts it back. *)
Lemma readmitted_batch_is_pending_again :
  dict_contains (_pending (step (NotifyBatchPending batch_B) (init empty_store 0)))
    "B" = true /\
  dict_contains (_pending rejected_world) "B" = false /\
  dict_contains (_pending readmitted_world) "B" = true.
Proof. by vm_compute. Qed.

Lemma timed_contains_later now seconds c key :
  timed_contains (now + seconds) c key = true -> timed_contains now c key = true.
Proof.
  unfold timed_contains, timed_get.
  destruct (dict_get (cache_items c) key) as [[value stamp]|]; [|done].
  destruct (decide (now + seconds < stamp + keep_time c)); [|done].
  intros _. rewrite decide_True by lia. done.
Qed.

Lemma timed_contains_setitem now c key value key' :
  key <> key' ->
  timed_contains now (timed_setitem now c key value) key' =
    timed_contains now c key'.
Proof.
  intros Hne. unfold timed_contains, timed_get. cbn.
  rewrite dict_get_setitem. by rewrite decide_False.
Qed.

Lemma next_exclusive op w :
  tracker_inv w ->
  match op with
  | NotifyBatchPending batch =>
      timed_contains (clock w) (_invalid w) (header_signature batch) = false
  | _ => True
  end ->
  exclusive w -> exclusive (next op w).
Proof.
  intros (Hwfp & _) Hguard Hex b.
  destruct op; cbn [next]; try apply Hex.
  - unfold swept, set_pending. cbn [_pending _invalid clock].
    destruct (emit_all_frame COMMITTED (committed_pending w) w)
      as (_ & -> & _ & ->).
    intros Hp. apply Hex. apply dict_contains_true in Hp as [v Hv].
    apply dict_contains_true. exists v. rewrite dict_get_unswept in Hv.
    by destruct (has_batch _ _).
  - destruct (batch_of_txn txn_id (_pending w)) as [b0|]; [|apply Hex].
    cbn. intros Hp Hi. apply dict_contains_true in Hp as [v Hv].
    rewrite dict_get_delete in Hv by done.
    destruct (decide (b0 = b)) as [->|Hne]; [done|].
    rewrite timed_contains_setitem in Hi by done.
    apply (Hex b); [|done]. apply dict_contains_true. by exists v.
  - cbn. intros Hp Hi. apply dict_contains_true in Hp as [v Hv].
    rewrite dict_get_setitem in Hv.
    destruct (decide (header_signature batch = b)) as [<-|Hne]; [congruence|].
    apply (Hex b); [|done]. apply dict_contains_true. by exists v.
  - cbv zeta. destruct (_has_no_pendings _); [|apply Hex].
    destruct (hasattr _ _); apply Hex.
  - cbn. intros Hp Hi. apply (Hex b); [done|].
    by apply timed_contains_later in Hi.
Qed.

Lemma run_exclusive ops :
  forall w,
    tracker_inv w -> exclusive w -> admits_fresh ops w -> exclusive (run ops w).
Proof.
  induction ops as [|op ops IH]; intros w Hinv Hex Hfresh; [done|].
  destruct Hfresh as [Hguard Hfresh]. simpl. apply IH.
  - by apply step_inv.
  - rewrite step_next by done. by apply next_exclusive.
  - done.
Qed.

(** C4 (amended): in every state reached from the initial state by a run
    in which no batch is admitted while the cache of invalid batches holds
    its id, no batch id is a key of the pending dict and of the cache at
    once. *)
Theorem pending_and_invalid_exclusive (block_store : BlockStore) (now : nat)
    (ops : list Op) (batch_id : string) :
  admits_fresh ops (init block_store now) ->
  ~ (dict_contains (_pending (run ops (init block_store now))) batch_id = true /\
     timed_contains (clock (run ops (init block_store now)))
       (_invalid (run ops (init block_store now))) batch_id = true).
Proof.
  intros Hfresh [Hp Hi].
  apply (run_exclusive ops (init block_store now)) with batch_id;
    [apply init_inv| |done|done|done].
  intros b Hb _. done.
Qed.

(** C4 as stated fails: after the batch B was rejected and admitted again,
    its id is a key of the pending dict and of the cache of invalid
    batches. *)
Lemma readmitted_batch_is_pending_and_invalid :
  dict_contains (_pending readmitted_world) "B" = true /\
  timed_contains (clock readmitted_world) (_invalid readmitted_world) "B" = true.
Proof. by vm_compute. Qed.

(** ** The theorems at sample states *)

Lemma watched_world_reachable : reachable watched_world.
Proof. apply run_reachable, reachable_init. Defined.

Lemma committed_world_reachable : reachable committed_world.
Proof. apply reachable_step, watched_world_reachable. Defined.

Lemma pending_and_invalid_exclusive_witness :
  admits_fresh
    [NotifyBatchPending batch_B; NotifyTxnInvalid "t1" None None; Tick 3600;
     NotifyBatchPending batch_B]
    (init empty_store 0) /\
  ~ (dict_contains
       (_pending
          (run [NotifyBatchPending batch_B; NotifyTxnInvalid "t1" None None;
                Tick 3600; NotifyBatchPending batch_B]
               (init empty_store 0))) "B" = true /\
     timed_contains
       (clock
          (run [NotifyBatchPending batch_B; NotifyTxnInvalid "t1" None None;
                Tick 3600; NotifyBatchPending batch_B]
               (init empty_store 0)))
       (_invalid
          (run [NotifyBatchPending batch_B; NotifyTxnInvalid "t1" None None;
                Tick 3600; NotifyBatchPending batch_B]
               (init empty_store 0))) "B" = true).
Proof.
  assert (admits_fresh
    [NotifyBatchPending batch_B; NotifyTxnInvalid "t1" None None; Tick 3600;
     NotifyBatchPending batch_B]
    (init empty_store 0)) as Hfresh.
  { vm_compute. repeat split. }
  split; [exact Hfresh|].
  exact (pending_and_invalid_exclusive empty_store 0 _ "B" Hfresh).
Defined.

Lemma notify_txn_invalid_first_match_witness :
  reachable watched_world /\
  exists w',
    notify_txn_invalid "t2" (Some "bad sig") None watched_world = (w', Ok tt) /\
    _pending w' = [("C", txn_ids_of batch_C)] /\
    dict_contains (_pending w') "B" = false /\
    get_invalid_txn_info "B" w' =
      (w', Ok {| info_id := "t2";
                 info_message := Some "bad sig";
                 info_extended_data := None |}) /\
    calls w' =
      [{| call_observer := eager_observer;
          call_method := "notify_batches_finished";
          call_statuses := [("B", INVALID)] |}] /\
    _observers w' = [(plain_observer, [("B", INVALID); ("C", PENDING)])].
Proof.
  split; [exact watched_world_reachable|].
  destruct (notify_txn_invalid_first_match "t2" (Some "bad sig") None
              watched_world watched_world_reachable) as [Hhit _].
  destruct (Hhit [] "B" (txn_ids_of batch_B) [("C", txn_ids_of batch_C)])
    as (w' & Hrun & _ & Hget & Hpending & Habsent & _).
  - reflexivity.
  - intros b t Hin. by apply elem_of_nil in Hin.
  - by vm_compute.
  - assert (w' = exec (notify_txn_invalid "t2" (Some "bad sig") None)
                   watched_world) as Hw.
    { unfold exec. by rewrite Hrun. }
    exists w'. split; [exact Hrun|]. split; [exact Hpending|].
    split; [exact Habsent|]. split; [exact Hget|].
    rewrite Hw. split; reflexivity.
Defined.

Lemma notify_store_updated_sweeps_witness :
  reachable committed_world /\
  exists w',
    notify_store_updated committed_world = (w', Ok tt) /\
    _pending w' = [("C", txn_ids_of batch_C)] /\
    calls w' =
      [{| call_observer := eager_observer;
          call_method := "notify_batches_finished";
          call_statuses := [("B", COMMITTED)] |}] /\
    _observers w' = [(plain_observer, [("B", COMMITTED); ("C", PENDING)])].
Proof.
  split; [exact committed_world_reachable|].
  destruct (notify_store_updated_sweeps committed_world
              committed_world_reachable) as (w' & Hrun & Hpending & _).
  assert (w' = exec notify_store_updated committed_world) as Hw.
  { unfold exec. by rewrite Hrun. }
  exists w'. split; [exact Hrun|]. split.
  { rewrite Hpending. reflexivity. }
  rewrite Hw. split; reflexivity.
Defined.


(** * Further properties of the tracker *)

(** ** Status queries *)

Lemma statuses_from_get w batch_ids :
  forall acc b,
    dict_get (statuses_from w acc batch_ids) b =
      if decide (b ∈ batch_ids) then Some (status_of w b) else dict_get acc b.
Proof.
  induction batch_ids as [|a rest IH]; intros acc b.
  - cbn. rewrite decide_False; [done|]. apply not_elem_of_nil.
  - change (statuses_from w acc (a :: rest))
      with (statuses_from w (dict_setitem acc a (status_of w a)) rest).
    rewrite IH, dict_get_setitem.
    destruct (decide (b ∈ rest)) as [Hin|Hnin].
    + rewrite decide_True; [done|]. by apply list_elem_of_further.
    + destruct (decide (a = b)) as [->|Hne].
      * rewrite decide_True; [done|]. apply list_elem_of_here.
      * rewrite decide_False; [done|].
        intros Hin. apply elem_of_cons in Hin as [->|Hin]; done.
Qed.

(** X1: [get_statuses] returns a dict that has exactly the requested batch
    ids as keys, an id requested twice being one key, each with the status
    that [get_status] returns for it; it never raises and leaves the state
    as it is. *)
Theorem get_statuses_pointwise (batch_ids : list string) (w : World) :
  exists statuses,
    get_statuses batch_ids w = (w, Ok statuses) /\
    dict_wf statuses /\
    forall b,
      if decide (b ∈ batch_ids)
      then exists status,
             get_status b w = (w, Ok status) /\
             dict_get statuses b = Some status
      else dict_get statuses b = None.
Proof.
  exists (statuses_of w batch_ids). split; [apply get_statuses_run|].
  split; [apply statuses_of_wf|]. intros b.
  unfold statuses_of. rewrite statuses_from_get.
  destruct (decide (b ∈ batch_ids)); [|done].
  exists (status_of w b). split; [apply get_status_run | done].
Qed.

Lemma _has_no_pendings_cons b s m :
  _has_no_pendings ((b, s) :: m) =
    bool_decide (s <> PENDING) && _has_no_pendings m.
Proof. done. Qed.

(** X2: for a statuses dict, [_has_no_pendings] is True exactly when no
    batch id has the status PENDING in it; for the empty dict it is
    True. *)
Theorem _has_no_pendings_iff (statuses : Statuses) :
  dict_wf statuses ->
  (_has_no_pendings statuses = true <->
   forall b, dict_get statuses b <> Some PENDING) /\
  _has_no_pendings [] = true.
Proof.
  intros Hwf. split; [|done].
  induction statuses as [|[b0 s0] m IH].
  - split; [intros _ b; done | done].
  - apply dict_wf_cons in Hwf as [Hk Hwf]. specialize (IH Hwf).
    rewrite _has_no_pendings_cons, andb_true_iff, bool_decide_eq_true, IH.
    split.
    + intros [Hs Hm] b. cbn. destruct (decide (b0 = b)); [congruence|apply Hm].
    + intros Hall. split.
      * intros ->. apply (Hall b0). cbn. by rewrite decide_True.
      * intros b Hb. apply (Hall b). cbn.
        rewrite decide_False; [done|]. intros ->.
        apply dict_get_None in Hk. congruence.
Qed.

Lemma _has_no_pendings_iff_witness :
  dict_wf [("B", INVALID); ("C", COMMITTED)] /\
  (_has_no_pendings [("B", INVALID); ("C", COMMITTED)] = true <->
   forall b, dict_get [("B", INVALID); ("C", COMMITTED)] b <> Some PENDING).
Proof.
  assert (dict_wf [("B", INVALID); ("C", COMMITTED)]) as Hwf.
  { apply (bool_decide_unpack _). by vm_compute. }
  split; [exact Hwf|].
  exact (proj1 (_has_no_pendings_iff [("B", INVALID); ("C", COMMITTED)] Hwf)).
Defined.

(** X3: a tracker that was just constructed reports COMMITTED for the
    batches of its block store and UNKNOWN for every other batch id, has no
    record of an invalid batch, and has nothing pending and no observer. *)
Theorem fresh_tracker_statuses (block_store : BlockStore) (now : nat)
    (batch_id : string) :
  get_status batch_id (init block_store now) =
    (init block_store now,
     Ok (if has_batch block_store batch_id then COMMITTED else UNKNOWN)) /\
  snd (get_invalid_txn_info batch_id (init block_store now)) =
    Raised (KeyError
      (inl ("Specified batch id not in invalid cache: " +:+ batch_id))) /\
  _pending (init block_store now) = [] /\
  _observers (init block_store now) = [].
Proof.
  split; [|done]. rewrite get_status_run. unfold status_of. cbn.
  by destruct (has_batch block_store batch_id).
Qed.

(** X4: [watch_statuses] with an empty list of batch ids never registers
    the observer: the statuses are the empty dict, which has no PENDING, so
    that the method goes for [notify_finished] at once and the registry and
    the pending dict stay as they are. *)
Theorem watch_statuses_empty (observer : Observer) (w : World) :
  get_statuses [] w = (w, Ok []) /\
  _observers (exec (watch_statuses observer []) w) = _observers w /\
  _pending (exec (watch_statuses observer []) w) = _pending w /\
  (if hasattr observer "notify_finished"
   then calls (exec (watch_statuses observer []) w) =
          calls w ++ [{| call_observer := observer;
                         call_method := "notify_finished";
                         call_statuses := [] |}]
   else watch_statuses observer [] w =
          (w, Raised (AttributeError observer "notify_finished"))).
Proof.
  split; [done|]. unfold exec. rewrite watch_statuses_run. cbn.
  by destruct (hasattr observer "notify_finished").
Qed.

(** ** How the operations change the status of a batch *)

Lemma status_of_swept w b : status_of (swept w) b = status_of w b.
Proof.
  unfold status_of, swept, set_pending. cbn [_block_store _invalid _pending clock].
  destruct (emit_all_frame COMMITTED (committed_pending w) w)
    as (-> & -> & _ & ->).
  destruct (has_batch (_block_store w) b) eqn:Hh; [done|].
  destruct (timed_contains (clock w) (_invalid w) b); [done|].
  unfold dict_contains. by rewrite dict_get_unswept, Hh.
Qed.

(** X5: the sweep of [notify_store_updated] changes the status of no
    batch: what [get_status] returned for a batch id before the call, it
    returns after it. *)
Theorem notify_store_updated_keeps_statuses (w : World) (batch_id : string)
    (status : BatchStatus) :
  reachable w ->
  get_status batch_id w = (w, Ok status) ->
  get_status batch_id (exec notify_store_updated w) =
    (exec notify_store_updated w, Ok status).
Proof.
  intros Hr Hst. apply reachable_inv in Hr as (Hwfp & Hwfo & _).
  unfold exec. rewrite notify_store_updated_run by done. cbn [fst].
  rewrite get_status_run in *. injection Hst as <-.
  by rewrite status_of_swept.
Qed.

Lemma notify_store_updated_keeps_statuses_witness :
  reachable committed_world /\
  get_status "B" committed_world = (committed_world, Ok COMMITTED) /\
  get_status "B" (exec notify_store_updated committed_world) =
    (exec notify_store_updated committed_world, Ok COMMITTED).
Proof.
  split; [exact committed_world_reachable|]. split; [reflexivity|].
  apply (notify_store_updated_keeps_statuses committed_world "B" COMMITTED
           committed_world_reachable).
  reflexivity.
Defined.

(** X6: after [notify_batch_pending], whose NameError leaves the pending
    dict changed, the batch admitted has the status PENDING if its status
    was UNKNOWN and keeps its status otherwise (COMMITTED and INVALID take
    precedence), and every other batch id keeps its status. *)
Theorem notify_batch_pending_status (batch : Batch) (w : World)
    (batch_id : string) (status : BatchStatus) :
  get_status batch_id w = (w, Ok status) ->
  get_status batch_id (exec (notify_batch_pending batch) w) =
    (exec (notify_batch_pending batch) w,
     Ok (if decide (batch_id = header_signature batch /\ status = UNKNOWN)
         then PENDING else status)).
Proof.
  intros Hst. rewrite get_status_run in *. injection Hst as <-.
  f_equal. f_equal. unfold exec. rewrite notify_batch_pending_run. cbn [fst].
  unfold status_of. cbn [_block_store _invalid _pending clock set_pending].
  destruct (has_batch (_block_store w) batch_id).
  { by rewrite decide_False by (by intros [_ ?]). }
  destruct (timed_contains (clock w) (_invalid w) batch_id).
  { by rewrite decide_False by (by intros [_ ?]). }
  unfold dict_contains. rewrite dict_get_setitem.
  destruct (decide (header_signature batch = batch_id)) as [<-|Hne].
  - destruct (dict_get (_pending w) (header_signature batch)).
    + by rewrite decide_False by (by intros [_ ?]).
    + by rewrite decide_True.
  - rewrite decide_False by (intros [-> _]; done).
    done.
Qed.

Lemma notify_batch_pending_status_witness :
  get_status "B" (init empty_store 0) = (init empty_store 0, Ok UNKNOWN) /\
  get_status "B" (exec (notify_batch_pending batch_B) (init empty_store 0)) =
    (exec (notify_batch_pending batch_B) (init empty_store 0), Ok PENDING).
Proof.
  split; [reflexivity|].
  exact (notify_batch_pending_status batch_B (init empty_store 0) "B" UNKNOWN
           eq_refl).
Defined.

Lemma timed_contains_setitem_same now c key value :
  0 < keep_time c ->
  timed_contains now (timed_setitem now c key value) key = true.
Proof.
  intros Hkeep. unfold timed_contains. by rewrite timed_get_setitem.
Qed.

(** X7: when [notify_txn_invalid] finds the transaction in the pending
    batch B, B has the status INVALID afterwards, or COMMITTED if the block
    store has it, and every other batch id keeps its status. *)
Theorem notify_txn_invalid_status (txn_id : string) (message : option string)
    (extended_data : option (list byte)) (w : World) (batch_id : string) :
  reachable w ->
  batch_of_txn txn_id (_pending w) = Some batch_id ->
  forall b status,
    get_status b w = (w, Ok status) ->
    get_status b (exec (notify_txn_invalid txn_id message extended_data) w) =
      (exec (notify_txn_invalid txn_id message extended_data) w,
       Ok (if decide (b = batch_id)
           then if has_batch (_block_store w) b then COMMITTED else INVALID
           else status)).
Proof.
  intros Hr Hb b status Hst. pose proof (reachable_keep_time w Hr) as Hkeep.
  apply reachable_inv in Hr as (Hwfp & Hwfo & _).
  unfold exec. rewrite notify_txn_invalid_run by done. cbn [fst next].
  rewrite Hb. rewrite get_status_run in *. injection Hst as <-.
  f_equal. f_equal. unfold status_of, invalidated.
  cbn [_block_store _invalid _pending clock emit set_calls set_observers
       set_pending set_invalid].
  destruct (has_batch (_block_store w) b) eqn:Hh.
  { by destruct (decide (b = batch_id)). }
  destruct (decide (b = batch_id)) as [->|Hne].
  - rewrite timed_contains_setitem_same; [done|].
    rewrite Hkeep. unfold INVALID_KEEP_TIME. lia.
  - rewrite timed_contains_setitem by done.
    destruct (timed_contains (clock w) (_invalid w) b); [done|].
    unfold dict_contains. rewrite dict_get_delete by done.
    by rewrite decide_False by done.
Qed.

Lemma notify_txn_invalid_status_witness :
  reachable watched_world /\
  batch_of_txn "t1" (_pending watched_world) = Some "B" /\
  get_status "B" watched_world = (watched_world, Ok PENDING) /\
  get_status "B" (exec (notify_txn_invalid "t1" None None) watched_world) =
    (exec (notify_txn_invalid "t1" None None) watched_world, Ok INVALID).
Proof.
  split; [exact watched_world_reachable|]. split; [reflexivity|].
  split; [reflexivity|].
  exact (notify_txn_invalid_status "t1" None None watched_world "B"
           watched_world_reachable eq_refl "B" PENDING eq_refl).
Defined.

(** X8: the record of an invalid batch is kept for one hour. After
    [notify_txn_invalid] found the transaction in the batch B, and over any
    run in which [notify_txn_invalid] is not called again,
    [get_invalid_txn_info] returns for B the record with the id of the
    transaction, the message and the extended data while less than
    INVALID_KEEP_TIME seconds have passed since, and raises KeyError from
    then on. *)
Theorem invalid_record_kept_one_hour (txn_id : string)
    (message : option string) (extended_data : option (list byte))
    (w w' : World) (batch_id : string) (ops : list Op) :
  reachable w ->
  batch_of_txn txn_id (_pending w) = Some batch_id ->
  (forall t m e, NotifyTxnInvalid t m e ∉ ops) ->
  w' = run ops (step (NotifyTxnInvalid txn_id message extended_data) w) ->
  get_invalid_txn_info batch_id w' =
    (w', if decide (elapsed ops < INVALID_KEEP_TIME)
         then Ok {| info_id := txn_id;
                    info_message := message;
                    info_extended_data := extended_data |}
         else Raised (KeyError
                (inl ("Specified batch id not in invalid cache: "
                      +:+ batch_id)))).
Proof.
  intros Hr Hb Hops ->. pose proof (reachable_keep_time w Hr) as Hkeep.
  apply reachable_inv in Hr as Hinv.
  assert (tracker_inv (step (NotifyTxnInvalid txn_id message extended_data) w))
    as Hinv1 by (by apply step_inv).
  rewrite get_invalid_txn_info_run. f_equal.
  destruct (run_without_rejection ops _ Hinv1 Hops) as [-> ->].
  rewrite (step_next (NotifyTxnInvalid _ _ _)) by done. cbn [next].
  rewrite Hb. unfold timed_get, invalidated.
  cbn [_invalid clock emit set_calls set_observers set_pending set_invalid
       timed_setitem cache_items keep_time make_txn_info].
  rewrite dict_get_setitem, decide_True by done. rewrite Hkeep.
  destruct (decide (elapsed ops < INVALID_KEEP_TIME)).
  - by rewrite decide_True by lia.
  - by rewrite decide_False by lia.
Qed.

Lemma invalid_record_kept_one_hour_witness :
  reachable watched_world /\
  batch_of_txn "t1" (_pending watched_world) = Some "B" /\
  (forall t m e,
     NotifyTxnInvalid t m e ∉
       [NotifyBatchPending batch_B; Tick 3599; NotifyStoreUpdated]) /\
  snd (get_invalid_txn_info "B"
         (run [NotifyBatchPending batch_B; Tick 3599; NotifyStoreUpdated]
            (step (NotifyTxnInvalid "t1" (Some "bad sig") None) watched_world))) =
    Ok {| info_id := "t1";
          info_message := Some "bad sig";
          info_extended_data := None |}.
Proof.
  assert (forall t m e,
     NotifyTxnInvalid t m e ∉
       [NotifyBatchPending batch_B; Tick 3599; NotifyStoreUpdated]) as Hops.
  { intros t m e Hin.
    apply elem_of_cons in Hin as [Heq|Hin]; [discriminate Heq|].
    apply elem_of_cons in Hin as [Heq|Hin]; [discriminate Heq|].
    apply elem_of_cons in Hin as [Heq|Hin]; [discriminate Heq|].
    by apply elem_of_nil in Hin. }
  split; [exact watched_world_reachable|]. split; [reflexivity|].
  split; [exact Hops|].
  rewrite (invalid_record_kept_one_hour "t1" (Some "bad sig") None
             watched_world _ "B" _ watched_world_reachable eq_refl Hops
             eq_refl).
  reflexivity.
Defined.

(** ** The sweep, again *)

Lemma set_calls_observers_id w :
  set_calls (calls w ++ []) (set_observers (_observers w) w) = w.
Proof. destruct w. unfold set_calls, set_observers. cbn. by rewrite app_nil_r. Qed.

Lemma swept_nothing w :
  (forall b, dict_contains (_pending w) b = true ->
             has_batch (_block_store w) b = false) ->
  swept w = w.
Proof.
  intros Hnone. unfold swept, committed_pending.
  assert (filter (fun b => has_batch (_block_store w) b = true)
            (dict_keys (_pending w)) = []) as ->.
  { destruct (filter _ _) as [|b l] eqn:Hf; [done|].
    assert (b ∈ filter (fun b => has_batch (_block_store w) b = true)
                  (dict_keys (_pending w))) as Hin.
    { rewrite Hf. apply list_elem_of_here. }
    apply list_elem_of_filter in Hin as [Hh Hin].
    apply dict_contains_keys, Hnone in Hin. congruence. }
  cbn. rewrite filter_all; [apply set_pending_id|].
  intros [k v] Hkv. cbn. apply Hnone, dict_contains_keys.
  apply (list_elem_of_fmap_2 fst) in Hkv. done.
Qed.

Lemma swept_pending_not_committed w b :
  dict_contains (_pending (swept w)) b = true ->
  has_batch (_block_store (swept w)) b = false.
Proof.
  unfold swept, set_pending. cbn [_pending _block_store].
  destruct (emit_all_frame COMMITTED (committed_pending w) w) as (-> & _).
  intros Hc. apply dict_contains_true in Hc as [v Hv].
  rewrite dict_get_unswept in Hv. by destruct (has_batch _ _).
Qed.

(** X9: when the block store has none of the pending batches,
    [notify_store_updated] returns and changes nothing: no batch leaves the
    pending dict, no observer is called or removed. *)
Theorem notify_store_updated_nothing_committed (w : World) :
  reachable w ->
  (forall b, dict_contains (_pending w) b = true ->
             has_batch (_block_store w) b = false) ->
  notify_store_updated w = (w, Ok tt).
Proof.
  intros Hr Hnone. apply reachable_inv in Hr as (Hwfp & Hwfo & _).
  rewrite notify_store_updated_run by done. by rewrite swept_nothing.
Qed.

Lemma notify_store_updated_nothing_committed_witness :
  reachable watched_world /\
  (forall b, dict_contains (_pending watched_world) b = true ->
             has_batch (_block_store watched_world) b = false) /\
  notify_store_updated watched_world = (watched_world, Ok tt).
Proof.
  split; [exact watched_world_reachable|].
  assert (forall b, dict_contains (_pending watched_world) b = true ->
                    has_batch (_block_store watched_world) b = false) as Hnone.
  { intros b _. reflexivity. }
  split; [exact Hnone|].
  exact (notify_store_updated_nothing_committed watched_world
           watched_world_reachable Hnone).
Defined.

(** X10: after [notify_store_updated] no pending batch is in the block
    store, and a second call, with the block store as it was, changes
    nothing more. *)
Theorem notify_store_updated_idempotent (w : World) :
  reachable w ->
  (forall b, dict_contains (_pending (exec notify_store_updated w)) b = true ->
             has_batch (_block_store w) b = false) /\
  notify_store_updated (exec notify_store_updated w) =
    (exec notify_store_updated w, Ok tt).
Proof.
  intros Hr. pose proof (reachable_inv w Hr) as (Hwfp & Hwfo & Hall).
  assert (tracker_inv (swept w)) as (Hwfp' & Hwfo' & _).
  { apply (next_inv NotifyStoreUpdated). by split. }
  unfold exec. rewrite notify_store_updated_run by done. cbn [fst]. split.
  - intros b Hb. apply swept_pending_not_committed in Hb.
    unfold swept, set_pending in Hb. cbn [_block_store] in Hb.
    by destruct (emit_all_frame COMMITTED (committed_pending w) w) as (<- & _).
  - rewrite notify_store_updated_run by done.
    rewrite swept_nothing; [done|]. apply swept_pending_not_committed.
Qed.

Lemma notify_store_updated_idempotent_witness :
  reachable committed_world /\
  notify_store_updated (exec notify_store_updated committed_world) =
    (exec notify_store_updated committed_world, Ok tt).
Proof.
  split; [exact committed_world_reachable|].
  exact (proj2 (notify_store_updated_idempotent committed_world
                  committed_world_reachable)).
Defined.

(** ** Emissions, again *)

Lemma emit_unwatched batch_id status registry :
  Forall (fun os => dict_contains os.2 batch_id = false) registry ->
  emit_observers batch_id status registry = registry /\
  emit_calls batch_id status registry = [].
Proof.
  induction 1 as [|[o m] rest Hm Hall [IHo IHc]]; [done|].
  cbn [emit_observers emit_calls]. unfold resolved_by, updated.
  cbn in Hm. rewrite Hm. cbn [andb]. by rewrite IHo, IHc.
Qed.

(** X11: a transition for a batch that no registered observer tracks
    changes nothing: [_update_observers] returns, no observer is called or
    removed and no statuses dict is changed. *)
Theorem _update_observers_unwatched (batch_id : string) (status : BatchStatus)
    (w : World) :
  reachable w ->
  (forall o m, (o, m) ∈ _observers w -> dict_contains m batch_id = false) ->
  _update_observers batch_id status w = (w, Ok tt).
Proof.
  intros Hr Hnone. apply reachable_inv in Hr as (Hwfp & Hwfo & _).
  rewrite _update_observers_emit by done. f_equal. unfold emit.
  destruct (emit_unwatched batch_id status (_observers w)) as [-> ->].
  - apply Forall_forall. intros [o m] Hin. cbn. by eapply Hnone.
  - apply set_calls_observers_id.
Qed.

Lemma _update_observers_unwatched_witness :
  reachable watched_world /\
  (forall o m, (o, m) ∈ _observers watched_world ->
               dict_contains m "D" = false) /\
  _update_observers "D" COMMITTED watched_world = (watched_world, Ok tt).
Proof.
  split; [exact watched_world_reachable|].
  assert (forall o m, (o, m) ∈ _observers watched_world ->
                      dict_contains m "D" = false) as Hnone.
  { intros o m Hin.
    apply elem_of_cons in Hin as [Heq|Hin]; [by injection Heq as -> ->|].
    apply elem_of_cons in Hin as [Heq|Hin]; [by injection Heq as -> ->|].
    by apply elem_of_nil in Hin. }
  split; [exact Hnone|].
  exact (_update_observers_unwatched "D" COMMITTED watched_world
           watched_world_reachable Hnone).
Defined.

Lemma emit_partition batch_id status registry :
  dict_keys registry ≡ₚ
    dict_keys (emit_observers batch_id status registry)
    ++ (call_observer <$> emit_calls batch_id status registry).
Proof.
  induction registry as [|[o m] rest IH]; [done|].
  cbn [emit_observers emit_calls].
  destruct (resolved_by batch_id status m).
  - rewrite dict_keys_cons, fmap_cons. cbn [call_observer].
    rewrite <- Permutation_middle. by constructor.
  - rewrite !dict_keys_cons. cbn. by constructor.
Qed.

Lemma emit_calls_order batch_id status registry :
  sublist (call_observer <$> emit_calls batch_id status registry)
          (dict_keys registry).
Proof.
  induction registry as [|[o m] rest IH]; [done|].
  cbn [emit_calls]. rewrite dict_keys_cons.
  destruct (resolved_by batch_id status m).
  - rewrite fmap_cons. by apply sublist_skip.
  - by apply sublist_cons.
Qed.

Lemma emit_calls_resolved batch_id status registry :
  Forall (fun c => call_method c = "notify_batches_finished" /\
                   _has_no_pendings (call_statuses c) = true /\
                   dict_contains (call_statuses c) batch_id = true)
         (emit_calls batch_id status registry).
Proof.
  induction registry as [|[o m] rest IH]; [constructor|].
  cbn [emit_calls]. destruct (resolved_by batch_id status m) eqn:Hr; [|done].
  constructor; [|done]. cbn. unfold resolved_by in Hr.
  apply andb_prop in Hr as [Hc Hnp]. split; [done|]. split; [done|].
  apply dict_contains_true. exists status. rewrite dict_get_setitem.
  by rewrite decide_True.
Qed.

(** X12: a transition splits the registry: the observers it calls are the
    observers it removes. Each registered observer is either kept or called
    once, the calls come in the order of registration, they are all calls
    of [notify_batches_finished], and the statuses passed track the batch
    of the transition and have no PENDING. *)
Theorem _update_observers_partition (batch_id : string) (status : BatchStatus)
    (w : World) :
  reachable w ->
  exists new,
    _update_observers batch_id status w =
      (exec (_update_observers batch_id status) w, Ok tt) /\
    calls (exec (_update_observers batch_id status) w) = calls w ++ new /\
    dict_keys (_observers w) ≡ₚ
      dict_keys (_observers (exec (_update_observers batch_id status) w))
      ++ (call_observer <$> new) /\
    sublist (call_observer <$> new) (dict_keys (_observers w)) /\
    NoDup (call_observer <$> new) /\
    Forall (fun c => call_method c = "notify_batches_finished" /\
                     _has_no_pendings (call_statuses c) = true /\
                     dict_contains (call_statuses c) batch_id = true) new.
Proof.
  intros Hr. apply reachable_inv in Hr as (Hwfp & Hwfo & _).
  exists (emit_calls batch_id status (_observers w)).
  unfold exec. rewrite _update_observers_emit by done. cbn [fst].
  split; [done|]. split; [done|]. split; [apply emit_partition|].
  split; [apply emit_calls_order|]. split; [|apply emit_calls_resolved].
  eapply sublist_NoDup; [exact Hwfo | apply emit_calls_order].
Qed.

Lemma _update_observers_partition_witness :
  reachable watched_world /\
  exists new,
    calls (exec (_update_observers "B" INVALID) watched_world) =
      calls watched_world ++ new /\
    NoDup (call_observer <$> new).
Proof.
  split; [exact watched_world_reachable|].
  destruct (_update_observers_partition "B" INVALID watched_world
              watched_world_reachable) as (new & _ & Hcalls & _ & _ & Hnd & _).
  exists new. split; [exact Hcalls | exact Hnd].
Defined.

(** ** Watching, again *)

(** X13: [watch_statuses] for an observer that is registered already
    replaces its statuses: when a status is PENDING, the registry holds the
    new statuses for the observer afterwards and what it held for it before
    is gone; the other observers keep their entries, the observer keeps its
    place if it had one and goes to the end if not, and no call is made. *)
Theorem watch_statuses_replaces (observer : Observer) (batch_ids : list string)
    (statuses : Statuses) (w : World) :
  get_statuses batch_ids w = (w, Ok statuses) ->
  _has_no_pendings statuses = false ->
  dict_get (_observers (exec (watch_statuses observer batch_ids) w)) observer
    = Some statuses /\
  (forall o, o <> observer ->
     dict_get (_observers (exec (watch_statuses observer batch_ids) w)) o
       = dict_get (_observers w) o) /\
  dict_keys (_observers (exec (watch_statuses observer batch_ids) w)) =
    (if dict_contains (_observers w) observer
     then dict_keys (_observers w)
     else dict_keys (_observers w) ++ [observer]) /\
  calls (exec (watch_statuses observer batch_ids) w) = calls w.
Proof.
  intros Hst Hnp. rewrite get_statuses_run in Hst. injection Hst as <-.
  unfold exec. rewrite watch_statuses_run. cbv zeta. rewrite Hnp. cbn [fst].
  cbn [_observers calls set_observers]. split_and!.
  - rewrite dict_get_setitem. by rewrite decide_True.
  - intros o Hne. rewrite dict_get_setitem. by rewrite decide_False.
  - apply dict_keys_setitem.
  - done.
Qed.

Lemma watch_statuses_replaces_witness :
  get_statuses ["C"] watched_world = (watched_world, Ok [("C", PENDING)]) /\
  _has_no_pendings [("C", PENDING)] = false /\
  dict_get (_observers (exec (watch_statuses eager_observer ["C"]) watched_world))
    eager_observer = Some [("C", PENDING)].
Proof.
  split; [reflexivity|]. split; [reflexivity|].
  exact (proj1 (watch_statuses_replaces eager_observer ["C"] [("C", PENDING)]
                  watched_world eq_refl eq_refl)).
Defined.

(** ** Admission, then rejection *)




(** ** What an observer holds over a run *)

Section progress_with.
Variable P : Statuses -> Prop.
Hypothesis P_setitem :
  forall m b s,
    s <> PENDING -> dict_contains m b = true -> P m -> P (dict_setitem m b s).

Lemma progress_with_emit o batch_id status registry new :
  status <> PENDING ->
  dict_wf registry ->
  awaiting_with P o registry new \/ notified_with P o registry new ->
  awaiting_with P o (emit_observers batch_id status registry)
                (new ++ emit_calls batch_id status registry) \/
  notified_with P o (emit_observers batch_id status registry)
                (new ++ emit_calls batch_id status registry).
Proof.
  intros Hs Hwf [(Hnone & m & Hm & Hp) | (c & Hc & Hpc & Hm)].
  - destruct (resolved_by batch_id status m) eqn:Hr.
    + right. unfold notified_with. eexists.
      rewrite calls_on_app, Hnone, emit_calls_on by done.
      rewrite Hm, Hr. split; [done|]. split.
      * cbn. unfold resolved_by in Hr. apply andb_prop in Hr as [Hin _].
        by apply P_setitem.
      * rewrite emit_observers_get by done. by rewrite Hm, Hr.
    + left. unfold awaiting_with.
      rewrite calls_on_app, Hnone, emit_calls_on by done.
      rewrite Hm, Hr. split; [done|]. exists (updated batch_id status m).
      split; [rewrite emit_observers_get by done; by rewrite Hm, Hr|].
      unfold updated. destruct (dict_contains m batch_id) eqn:Hin; [|done].
      by apply P_setitem.
  - right. unfold notified_with. exists c.
    rewrite calls_on_app, Hc, emit_calls_on by done.
    rewrite Hm. split; [done|]. split; [done|].
    rewrite emit_observers_get by done. by rewrite Hm.
Qed.

Lemma progress_with_emit_all o base status batch_ids :
  status <> PENDING ->
  forall w new,
    dict_wf (_observers w) ->
    calls w = base ++ new ->
    awaiting_with P o (_observers w) new \/
      notified_with P o (_observers w) new ->
    exists new',
      calls (emit_all status batch_ids w) = base ++ new' /\
      (awaiting_with P o (_observers (emit_all status batch_ids w)) new' \/
       notified_with P o (_observers (emit_all status batch_ids w)) new').
Proof.
  intros Hs. induction batch_ids as [|b rest IH]; intros w new Hwf Hcalls Hprog.
  - by exists new.
  - rewrite emit_all_cons.
    apply (IH _ (new ++ emit_calls b status (_observers w))).
    + by apply emit_observers_wf.
    + cbn. by rewrite Hcalls, <- app_assoc.
    + by apply progress_with_emit.
Qed.

Lemma progress_with_next o base op w new :
  tracker_inv w ->
  (forall batch_ids, op <> WatchStatuses o batch_ids) ->
  calls w = base ++ new ->
  awaiting_with P o (_observers w) new \/
    notified_with P o (_observers w) new ->
  exists new',
    calls (next op w) = base ++ new' /\
    (awaiting_with P o (_observers (next op w)) new' \/
     notified_with P o (_observers (next op w)) new').
Proof.
  intros (Hwfp & Hwfo & _) Hop Hcalls Hprog.
  destruct op; cbn [next]; try (by exists new).
  - unfold swept.
    by apply (progress_with_emit_all o base COMMITTED
                (committed_pending w) ltac:(done) w new).
  - destruct (batch_of_txn txn_id (_pending w)) as [b|]; [|by exists new].
    exists (new ++ emit_calls b INVALID (_observers w)). split.
    + cbn. by rewrite Hcalls, <- app_assoc.
    + by apply progress_with_emit.
  - cbv zeta. destruct (_has_no_pendings (statuses_of w batch_ids)) eqn:Hnp.
    + destruct (hasattr observer "notify_finished"); [|by exists new].
      eexists. split; [cbn; by rewrite Hcalls, <- app_assoc|]. cbn.
      assert (observer <> o) as Hne by (intros ->; by eapply Hop).
      unfold awaiting_with, notified_with. rewrite calls_on_app.
      unfold calls_on at 2 4. rewrite filter_cons_False by done.
      rewrite filter_nil, app_nil_r. done.
    + exists new. split; [done|]. cbn.
      assert (observer <> o) as Hne by (intros ->; by eapply Hop).
      unfold awaiting_with, notified_with. rewrite dict_get_setitem.
      by rewrite decide_False.
Qed.

Lemma progress_with_run o base ops :
  forall w new,
    tracker_inv w ->
    (forall batch_ids, WatchStatuses o batch_ids ∉ ops) ->
    calls w = base ++ new ->
    awaiting_with P o (_observers w) new \/
      notified_with P o (_observers w) new ->
    exists new',
      calls (run ops w) = base ++ new' /\
      (awaiting_with P o (_observers (run ops w)) new' \/
       notified_with P o (_observers (run ops w)) new').
Proof.
  induction ops as [|op ops IH]; intros w new Hinv Hops Hcalls Hprog.
  - by exists new.
  - simpl.
    destruct (progress_with_next o base op w new) as (new' & Hcalls' & Hprog');
      [done| |done|done|].
    { intros batch_ids ->. eapply Hops, list_elem_of_here. }
    rewrite step_next by done.
    apply (IH _ new'); [by apply next_inv| |done|done].
    intros batch_ids Hin. eapply Hops. by apply list_elem_of_further.
Qed.
End progress_with.

Lemma settles_refl m : settles m m.
Proof. by split. Qed.

Lemma settles_setitem m0 m b s :
  s <> PENDING -> dict_contains m b = true ->
  settles m0 m -> settles m0 (dict_setitem m b s).
Proof.
  intros Hs Hin [Hkeys Hmono]. split.
  - by rewrite dict_keys_setitem, Hin.
  - intros b' Hb'. rewrite dict_get_setitem.
    destruct (decide (b = b')); [congruence | by apply Hmono].
Qed.

(** X15: the statuses of a registered observer only settle. Over any run
    in which the observer is not registered anew, the statuses that the
    registry holds for it, and the statuses passed to it when it is called,
    have the batch ids that its statuses had at the start, in the same
    order, and no batch id that was not PENDING at the start is PENDING in
    them: the tracker never sets a status of an observer to PENDING. *)
Theorem observer_statuses_settle (o : Observer) (m : Statuses) (w : World)
    (ops : list Op) :
  reachable w ->
  dict_get (_observers w) o = Some m ->
  (forall batch_ids, WatchStatuses o batch_ids ∉ ops) ->
  exists new,
    calls (run ops w) = calls w ++ new /\
    (awaiting_with (settles m) o (_observers (run ops w)) new \/
     notified_with (settles m) o (_observers (run ops w)) new).
Proof.
  intros Hr Hm Hops. apply reachable_inv in Hr.
  apply (progress_with_run (settles m) (settles_setitem m) o (calls w) ops w []);
    [done|done|by rewrite app_nil_r|].
  left. split; [done|]. exists m. split; [done | apply settles_refl].
Qed.

Lemma observer_statuses_settle_witness :
  reachable watched_world /\
  dict_get (_observers watched_world) plain_observer =
    Some [("B", PENDING); ("C", PENDING)] /\
  exists new,
    calls (run [NotifyTxnInvalid "t1" None None; NotifyStoreUpdated]
               watched_world) = calls watched_world ++ new /\
    (awaiting_with (settles [("B", PENDING); ("C", PENDING)]) plain_observer
       (_observers (run [NotifyTxnInvalid "t1" None None; NotifyStoreUpdated]
                        watched_world)) new \/
     notified_with (settles [("B", PENDING); ("C", PENDING)]) plain_observer
       (_observers (run [NotifyTxnInvalid "t1" None None; NotifyStoreUpdated]
                        watched_world)) new).
Proof.
  split; [exact watched_world_reachable|]. split; [reflexivity|].
  apply (observer_statuses_settle plain_observer
           [("B", PENDING); ("C", PENDING)] watched_world
           [NotifyTxnInvalid "t1" None None; NotifyStoreUpdated]
           watched_world_reachable eq_refl).
  intros batch_ids Hin.
  apply elem_of_cons in Hin as [Heq|Hin]; [discriminate Heq|].
  apply elem_of_cons in Hin as [Heq|Hin]; [discriminate Heq|].
  by apply elem_of_nil in Hin.
Defined.

(** ** What each operation leaves alone *)

Lemma emit_all_observers_keys status batch_ids :
  forall w,
    sublist (dict_keys (_observers (emit_all status batch_ids w)))
            (dict_keys (_observers w)).
Proof.
  induction batch_ids as [|b rest IH]; intros w; [done|].
  rewrite emit_all_cons. etrans; [apply IH|]. apply emit_observers_keys.
Qed.

(** X16: only [watch_statuses] adds an observer to the registry and only
    [notify_txn_invalid] writes to the cache of invalid batches: after any
    other operation the observers registered are among those registered
    before, in the same order, and the cache is the same. *)
Theorem step_frame (op : Op) (w : World) :
  reachable w ->
  ((forall o batch_ids, op <> WatchStatuses o batch_ids) ->
   sublist (dict_keys (_observers (step op w))) (dict_keys (_observers w))) /\
  ((forall txn_id message extended_data,
      op <> NotifyTxnInvalid txn_id message extended_data) ->
   _invalid (step op w) = _invalid w).
Proof.
  intros Hr. apply reachable_inv in Hr. rewrite step_next by done. split.
  - intros Hop. destruct op; cbn [next]; try done.
    + unfold swept, set_pending. cbn [_observers].
      apply emit_all_observers_keys.
    + destruct (batch_of_txn txn_id (_pending w)); [|done].
      cbn. apply emit_observers_keys.
    + by destruct (Hop observer batch_ids).
  - intros Hop. destruct op; cbn [next]; try done.
    + unfold swept, set_pending. cbn [_invalid].
      by destruct (emit_all_frame COMMITTED (committed_pending w) w)
        as (_ & -> & _).
    + by destruct (Hop txn_id message extended_data).
    + cbv zeta. destruct (_has_no_pendings _); [|done].
      by destruct (hasattr _ _).
Qed.

Lemma step_frame_witness :
  reachable committed_world /\
  _invalid (step NotifyStoreUpdated committed_world) = _invalid committed_world.
Proof.
  split; [exact committed_world_reachable|].
  apply (step_frame NotifyStoreUpdated committed_world
           committed_world_reachable).
  intros txn_id message extended_data Heq. discriminate Heq.
Defined.

(** ** Expiry *)

Lemma run_pending_absent ops :
  forall w batch_id,
    tracker_inv w ->
    (forall batch, NotifyBatchPending batch ∈ ops ->
                   header_signature batch <> batch_id) ->
    dict_contains (_pending w) batch_id = false ->
    dict_contains (_pending (run ops w)) batch_id = false.
Proof.
  induction ops as [|op ops IH]; intros w batch_id Hinv Hops Habs; [done|].
  simpl. rewrite step_next by done. apply IH.
  - by apply next_inv.
  - intros batch Hin. by apply Hops, list_elem_of_further.
  - apply next_pending_absent; [done| |done].
    intros batch ->. apply Hops, list_elem_of_here.
Qed.

(** X17: an invalid batch is forgotten after one hour. After
    [notify_txn_invalid] found the transaction in the batch B, and over any
    run in which [notify_txn_invalid] is not called again and no batch with
    the id of B is admitted, [get_status] returns for B: COMMITTED when the
    block store has B at the time of the query; otherwise INVALID while
    less than INVALID_KEEP_TIME seconds have passed since the rejection,
    and UNKNOWN from then on. *)
Theorem invalid_status_expires (txn_id : string) (message : option string)
    (extended_data : option (list byte)) (w w' : World) (batch_id : string)
    (ops : list Op) :
  reachable w ->
  batch_of_txn txn_id (_pending w) = Some batch_id ->
  (forall t m e, NotifyTxnInvalid t m e ∉ ops) ->
  (forall batch, NotifyBatchPending batch ∈ ops ->
                 header_signature batch <> batch_id) ->
  w' = run ops (step (NotifyTxnInvalid txn_id message extended_data) w) ->
  get_status batch_id w' =
    (w', Ok (if has_batch (_block_store w') batch_id then COMMITTED
             else if decide (elapsed ops < INVALID_KEEP_TIME) then INVALID
             else UNKNOWN)).
Proof.
  intros Hr Hb Hops Hadm ->. pose proof (reachable_keep_time w Hr) as Hkeep.
  apply reachable_inv in Hr as Hinv. pose proof Hinv as (Hwfp & _).
  assert (tracker_inv (step (NotifyTxnInvalid txn_id message extended_data) w))
    as Hinv1 by (by apply step_inv).
  rewrite get_status_run. f_equal. f_equal. unfold status_of.
  destruct (has_batch _ batch_id); [done|].
  destruct (run_without_rejection ops _ Hinv1 Hops) as [-> ->].
  rewrite (run_pending_absent ops _ batch_id Hinv1 Hadm); cycle 1.
  { rewrite (step_next (NotifyTxnInvalid _ _ _)) by done. cbn [next].
    rewrite Hb. cbn. apply dict_contains_false.
    rewrite dict_get_delete by done. by rewrite decide_True. }
  rewrite (step_next (NotifyTxnInvalid _ _ _)) by done. cbn [next].
  rewrite Hb. unfold timed_contains, timed_get, invalidated.
  cbn [_invalid clock emit set_calls set_observers set_pending set_invalid
       timed_setitem cache_items keep_time].
  rewrite dict_get_setitem, decide_True by done. rewrite Hkeep.
  destruct (decide (elapsed ops < INVALID_KEEP_TIME)).
  - by rewrite decide_True by lia.
  - by rewrite decide_False by lia.
Qed.

Lemma invalid_status_expires_witness :
  reachable watched_world /\
  batch_of_txn "t1" (_pending watched_world) = Some "B" /\
  (forall t m e,
     NotifyTxnInvalid t m e ∉
       [Tick 3600; NotifyBatchPending batch_C; NotifyStoreUpdated]) /\
  (forall batch,
     NotifyBatchPending batch ∈
       [Tick 3600; NotifyBatchPending batch_C; NotifyStoreUpdated] ->
     header_signature batch <> "B") /\
  snd (get_status "B"
         (run [Tick 3600; NotifyBatchPending batch_C; NotifyStoreUpdated]
            (step (NotifyTxnInvalid "t1" None None) watched_world))) =
    Ok UNKNOWN.
Proof.
  assert (forall t m e,
     NotifyTxnInvalid t m e ∉
       [Tick 3600; NotifyBatchPending batch_C; NotifyStoreUpdated]) as Hops.
  { intros t m e Hin.
    apply elem_of_cons in Hin as [Heq|Hin]; [discriminate Heq|].
    apply elem_of_cons in Hin as [Heq|Hin]; [discriminate Heq|].
    apply elem_of_cons in Hin as [Heq|Hin]; [discriminate Heq|].
    by apply elem_of_nil in Hin. }
  assert (forall batch,
     NotifyBatchPending batch ∈
       [Tick 3600; NotifyBatchPending batch_C; NotifyStoreUpdated] ->
     header_signature batch <> "B") as Hadm.
  { intros batch Hin.
    apply elem_of_cons in Hin as [Heq|Hin]; [discriminate Heq|].
    apply elem_of_cons in Hin as [Heq|Hin];
      [injection Heq as ->; discriminate|].
    apply elem_of_cons in Hin as [Heq|Hin]; [discriminate Heq|].
    by apply elem_of_nil in Hin. }
  split; [exact watched_world_reachable|]. split; [reflexivity|].
  split; [exact Hops|]. split; [exact Hadm|].
  rewrite (invalid_status_expires "t1" None None watched_world _ "B" _
             watched_world_reachable eq_refl Hops Hadm eq_refl).
  reflexivity.
Defined.
